(** * stampy_chat.chat: prompt assembly and the streaming orchestrator

    A shallow embedding of [api/src/stampy_chat/chat.py].

    - A Python [str] is a sequence of Unicode code points: [list N].
    - [int] is [Z]; the two float constants are exact rationals ([Q]) and
      [int(...)] truncates toward zero.
    - Code that can raise returns a [result]; the generator
      [talk_to_robot_internal] is its run to exhaustion: the list of what it
      yields, interleaved with the calls it makes to its collaborators.
    - The tokenizer (tiktoken), the retrieval index, the moderation endpoint,
      the completion service, the budget manager (litellm) and the followup
      search are outside the file: they are fields of [Tokenizer] and
      [World]. *)

From Stdlib Require Import List ZArith NArith QArith Lia Bool String Ascii.
Import ListNotations.
Local Open Scope Z_scope.

(** [length] is the length of a list throughout. *)
Abbreviation length := List.length (only parsing).

(** ** Python strings *)

Definition str := list N.

Definition lit (s : string) : str :=
  map N_of_ascii (list_ascii_of_string s).

Definition NL : str := [10%N].
Definition DQUOTE : str := [34%N].

Fixpoint str_eqb (a b : str) : bool :=
  match a, b with
  | [], [] => true
  | x :: a', y :: b' => N.eqb x y && str_eqb a' b'
  | _, _ => false
  end.

(** [len(x)] as a Python int. *)
Definition len {A} (l : list A) : Z := Z.of_nat (List.length l).

(** [sep.join(parts)] *)
Fixpoint join (sep : str) (parts : list str) : str :=
  match parts with
  | [] => []
  | [p] => p
  | p :: rest => p ++ sep ++ join sep rest
  end.

(** [str.isspace] on one code point: the characters [str.strip()] removes. *)
Definition isspace (c : N) : bool :=
  ((9 <=? c) && (c <=? 13) || (28 <=? c) && (c <=? 32)
   || (c =? 133) || (c =? 160) || (c =? 5760)
   || (8192 <=? c) && (c <=? 8202)
   || (c =? 8232) || (c =? 8233) || (c =? 8239) || (c =? 8287)
   || (c =? 12288))%N.

Fixpoint lstrip (s : str) : str :=
  match s with
  | c :: s' => if isspace c then lstrip s' else s
  | [] => []
  end.

Definition strip (s : str) : str := rev (lstrip (rev (lstrip s))).

(** Exceptions; [str_of_exn] is [str(e)]. Both kinds are subclasses of
    [Exception], which is what [talk_to_robot_internal] catches. *)
Inductive exn : Type :=
| ValueError (msg : str)
| Exception (msg : str).

Definition str_of_exn (e : exn) : str :=
  match e with ValueError m => m | Exception m => m end.

Inductive result (A : Type) : Type :=
| Ok (a : A)
| Raise (e : exn).
Arguments Ok {A} a.
Arguments Raise {A} e.

(** [chr(n)]: defined on code points below 0x110000, a ValueError above. *)
Definition chr (n : Z) : result str :=
  if (0 <=? n) && (n <? 1114112)
  then Ok [Z.to_N n]
  else Raise (ValueError (lit "chr() arg not in range(0x110000)")).

(** [ord('a')] *)
Definition ord_a : Z := 97.

(** [re.sub(r"\[[0-9]+\]", "[x]", s)]: every leftmost, non-overlapping
    bracketed run of one or more ASCII digits becomes [[x]].  One pass;
    [pending = Some ds] means an opening bracket and the digits [ds]
    (latest first) have been read and not yet emitted. *)
Definition is_digit (c : N) : bool := ((48 <=? c) && (c <=? 57))%N.
Definition LBRACKET : N := 91%N.
Definition RBRACKET : N := 93%N.

Fixpoint censor_from (pending : option (list N)) (s : str) : str :=
  match pending, s with
  | None, [] => []
  | None, c :: r =>
      if N.eqb c LBRACKET then censor_from (Some []) r
      else c :: censor_from None r
  | Some ds, [] => LBRACKET :: rev ds
  | Some ds, c :: r =>
      if is_digit c then censor_from (Some (c :: ds)) r
      else if N.eqb c RBRACKET && negb (Nat.eqb (List.length ds) 0)
           then lit "[x]" ++ censor_from None r
      else if N.eqb c LBRACKET
           then (LBRACKET :: rev ds) ++ censor_from (Some []) r
      else (LBRACKET :: rev ds) ++ c :: censor_from None r
  end.

Definition censor_sources (s : str) : str := censor_from None s.

(** ** env, constants *)

Definition COMPLETIONS_MODEL : str := lit "gpt-3.5-turbo".

Definition STANDARD_K : Z :=
  if str_eqb COMPLETIONS_MODEL (lit "gpt-4") then 20 else 10.

Definition NUM_TOKENS : Z :=
  if str_eqb COMPLETIONS_MODEL (lit "gpt-4") then 8191 else 4095.

Definition HISTORY_FRACTION : Q := 1 # 4.
Definition CONTEXT_FRACTION : Q := 1 # 2.

(** [int(x)] of a float: truncation toward zero. *)
Definition int (q : Q) : Z := Z.quot (Qnum q) (Zpos (Qden q)).

Definition CONTEXT_LIMIT : Z := int (inject_Z NUM_TOKENS * CONTEXT_FRACTION).
Definition HISTORY_LIMIT : Z := int (inject_Z NUM_TOKENS * HISTORY_FRACTION).

(** [ENCODER = tiktoken.get_encoding("cl100k_base")]: the tokenizer is a
    library outside the file, so it is a parameter of everything below. *)
Record Tokenizer : Type := {
  encode : str -> list N;
  decode : list N -> str
}.

(** A message of the prompt and an entry of the history have the same
    shape: a dict with the keys "role" and "content". *)
Record Message : Type := {
  role : str;
  content : str
}.

(** Modelled from the spec: the dataclass [Block] of
    [stampy_chat.get_blocks], which the file imports; the fields are those
    of the spec's ReferenceBlock. *)
Record Block : Type := {
  title : str;
  authors : list str;
  date : str;
  url : str;
  text : str
}.

Section PromptCode.

Variable ENCODER : Tokenizer.

(** limit a string to a certain number of tokens *)
Definition cap (text : str) (max_tokens : Z) : str :=
  if max_tokens <=? 0 then lit "..."
  else
    let encoded_text := encode ENCODER text in
    if len encoded_text <=? max_tokens then text
    else decode ENCODER (firstn (Z.to_nat max_tokens) encoded_text) ++ lit " ...".

(** [len(ENCODER.encode(s))] *)
Definition token_count_of (s : str) : Z := len (encode ENCODER s).

Definition SOURCE_INTRO : str :=
  lit "You are a helpful assistant knowledgeable about AI Alignment and Safety. "
  ++ lit "Please give a clear and coherent answer to the user's questions.(written after "
  ++ DQUOTE ++ lit "Q:" ++ DQUOTE ++ lit ") "
  ++ lit "using the following sources. Each source is labeled with a letter. Feel free to "
  ++ lit "use the sources in any order, and try to use multiple sources in your answers."
  ++ NL ++ NL.

Definition HISTORY_CAVEAT : str :=
  NL ++ NL
  ++ lit "Before the question (" ++ DQUOTE ++ lit "Q: " ++ DQUOTE
  ++ lit "), there will be a history of previous questions and answers. "
  ++ lit "These sources only apply to the last question. Any sources used in previous answers "
  ++ lit "are invalid.".

Definition CITE_INSTRUCTIONS : str :=
  lit "In your answer, please cite any claims you make back to each source "
  ++ lit "using the format: [a], [b], etc. If you use multiple sources to make a claim "
  ++ lit "cite all of them. For example: " ++ DQUOTE
  ++ lit "AGI is concerning [c, d, e]." ++ DQUOTE ++ NL ++ NL.

Definition CONCISE_CLAUSE : str :=
  lit "Answer very concisely, getting to the crux of the matter in as "
  ++ lit "few words as possible. Limit your answer to 1-2 sentences." ++ NL ++ NL.

Definition ROOKIE_CLAUSE : str :=
  lit "This user is new to the field of AI Alignment and Safety - don't "
  ++ lit "assume they know any technical terms or jargon. Still give a complete answer "
  ++ lit "without patronizing the user, but take any extra time needed to "
  ++ lit "explain new concepts or to illustrate your answer with examples. "
  ++ lit "Put extra effort into explaining the intuition behind concepts "
  ++ lit "rather than just giving a formal definition." ++ NL ++ NL.

(** The f-string of one block, [i] being its position in the context. *)
Definition block_str (i : Z) (block : Block) : result str :=
  match chr (ord_a + i) with
  | Raise e => Raise e
  | Ok letter =>
      Ok (lit "[" ++ letter ++ lit "] " ++ title block ++ lit " - "
          ++ join (lit ",") (authors block) ++ lit " - " ++ date block
          ++ NL ++ text block ++ NL ++ NL)
  end.

(** The loop over [enumerate(context)]: [source_prompt] and [token_count]
    are its two mutable variables, [i] the running index; the [break]
    returns at once. *)
Fixpoint add_blocks (i : Z) (context : list Block)
    (source_prompt : str) (token_count : Z) : result str :=
  match context with
  | [] => Ok source_prompt
  | block :: rest =>
      match block_str i block with
      | Raise e => Raise e
      | Ok bs =>
          let block_tc := len (encode ENCODER bs) in
          if token_count + block_tc >? CONTEXT_LIMIT
          then Ok (source_prompt ++ cap bs (CONTEXT_LIMIT - token_count))
          else add_blocks (i + 1) rest (source_prompt ++ bs) (token_count + block_tc)
      end
  end.

(** [history[:-10:-1]]: from the last entry backward, stopping before the
    tenth from the end. *)
Definition last_entries_reversed (history : list Message) : list Message :=
  firstn 9 (rev history).

(** What one history entry becomes, given the running [token_count]. *)
Definition fold_entry (message : Message) (token_count : Z) : Message :=
  if str_eqb (role message) (lit "user")
  then {| role := lit "user"; content := lit "Q: " ++ content message |}
  else {| role := lit "assistant";
          content := censor_sources
                       (cap (content message) (HISTORY_LIMIT - token_count)) |}.

(** The loop over the reversed history, [history_trnc] and [token_count]
    being its mutable variables. *)
Fixpoint collect_history (messages : list Message) (token_count : Z)
    (history_trnc : list Message) : list Message :=
  match messages with
  | [] => history_trnc
  | message :: rest =>
      let m := fold_entry message token_count in
      let history_trnc := history_trnc ++ [m] in
      let token_count := token_count + len (encode ENCODER (content m)) in
      if token_count >? HISTORY_LIMIT then history_trnc
      else collect_history rest token_count history_trnc
  end.

Definition system_message (history : list Message) (context : list Block)
    : result Message :=
  match add_blocks 0 context SOURCE_INTRO (len (encode ENCODER SOURCE_INTRO)) with
  | Raise e => Raise e
  | Ok source_prompt =>
      let source_prompt := strip source_prompt in
      let source_prompt :=
        if len history >? 0 then source_prompt ++ HISTORY_CAVEAT
        else source_prompt in
      Ok {| role := lit "system"; content := strip source_prompt |}
  end.

Definition question_prompt (query mode : str) : result str :=
  if str_eqb mode (lit "concise")
  then Ok (CITE_INSTRUCTIONS ++ CONCISE_CLAUSE ++ lit "Q: " ++ query)
  else if str_eqb mode (lit "rookie")
  then Ok (CITE_INSTRUCTIONS ++ ROOKIE_CLAUSE ++ lit "Q: " ++ query)
  else if negb (str_eqb mode (lit "default"))
  then Raise (ValueError (lit "Invalid mode: " ++ mode))
  else Ok (CITE_INSTRUCTIONS ++ lit "Q: " ++ query).

Definition construct_prompt (query mode : str) (history : list Message)
    (context : list Block) : result (list Message) :=
  match system_message history context with
  | Raise e => Raise e
  | Ok system =>
      let history_trnc := collect_history (last_entries_reversed history) 0 [] in
      match question_prompt query mode with
      | Raise e => Raise e
      | Ok question =>
          Ok ([system] ++ rev history_trnc
              ++ [{| role := lit "user"; content := question |}])
      end
  end.

End PromptCode.

(** ** completion code *)

(** The events the generator yields: the dicts with the key "state". *)
Inductive Phase : Type := Semantic | Prompt | Llm.

Record Citation : Type := {
  cite_title : str;
  cite_author : list str;
  cite_date : str;
  cite_url : str
}.

(** Modelled from the spec: a followup of [stampy_chat.followups], an
    opaque serializable record; [asdict(followup)] is the record itself. *)
Record Followup : Type := { followup_fields : list (str * str) }.

Inductive Event : Type :=
| Loading (phase : Phase) (citations : option (list Citation))
| Streaming (content : str)
| Done (followups : list Followup)
| Error (error : str).

(** The calls that leave the process, with their arguments. *)
Inductive Call : Type :=
| GetTopKBlocks (query : str) (k : Z)
| ModerationCreate (input : list str)
| Log (line : str)
| GetCurrentCost (user : str)
| GetTotalBudget (user : str)
| Completion (model : str) (messages : list Message) (max_tokens : Z)
| UpdateCost (completion_obj : str) (user : str)
| MultisearchAuthored (queries : list str) (debug : bool)
| CreateBudget (total_budget : Q) (user : str).

Inductive Obs : Type :=
| Yield (e : Event)
| Calls (c : Call).

(** [mod_res["results"]]: the flags, and the text [json.dumps] gives. *)
Record ModerationResult : Type := {
  flagged : list bool;
  results_json : str
}.

(** A chunk of the stream: [chunk["choices"][0]["delta"]], which may be
    None, and whose "content" may be None. *)
Record Chunk : Type := { delta : option (option str) }.

(** The iterator [litellm.completion] returns: the chunks it delivers and,
    when it fails (at the call or at a later [next]), the exception. *)
Record Stream : Type := {
  chunks : list Chunk;
  failure : option exn
}.

(** The collaborators.  [update_cost] also receives how many times it was
    called before, the budget manager being stateful. *)
Record World (Index : Type) : Type := {
  get_top_k_blocks : Index -> str -> Z -> result (list Block);
  moderation_create : list str -> result ModerationResult;
  get_current_cost : str -> result Q;
  get_total_budget : str -> result Q;
  completion : str -> list Message -> Z -> Stream;
  update_cost : nat -> str -> str -> result unit;
  multisearch_authored : list str -> bool -> result (list Followup);
  create_budget : Q -> str -> result unit;
  uuid4 : str;
  DEBUG_PRINT : bool
}.
Arguments get_top_k_blocks {Index}.
Arguments moderation_create {Index}.
Arguments get_current_cost {Index}.
Arguments get_total_budget {Index}.
Arguments completion {Index}.
Arguments update_cost {Index}.
Arguments multisearch_authored {Index}.
Arguments create_budget {Index}.
Arguments uuid4 {Index}.
Arguments DEBUG_PRINT {Index}.

(** The generator monad: what was observed so far, and how the code went on. *)
Definition Gen (A : Type) : Type := (list Obs * result A)%type.

Definition ret {A} (a : A) : Gen A := ([], Ok a).

Definition bind {A B} (m : Gen A) (f : A -> Gen B) : Gen B :=
  match snd m with
  | Ok a => (fst m ++ fst (f a), snd (f a))
  | Raise e => (fst m, Raise e)
  end.

Definition yield (e : Event) : Gen unit := ([Yield e], Ok tt).
Definition call {A} (c : Call) (r : result A) : Gen A := ([Calls c], r).
Definition raise {A} (e : exn) : Gen A := ([], Raise e).
Definition lift {A} (r : result A) : Gen A := ([], r).

Notation "x <- m ;; k" := (bind m (fun x => k))
  (at level 61, m at next level, right associativity).
Notation "m ;; k" := (bind m (fun _ => k))
  (at level 61, right associativity).

Definition events (t : list Obs) : list Event :=
  flat_map (fun o => match o with Yield e => [e] | Calls _ => [] end) t.

Definition calls (t : list Obs) : list Call :=
  flat_map (fun o => match o with Yield _ => [] | Calls c => [c] end) t.

Definition citation_of (block : Block) : Citation :=
  {| cite_title := title block; cite_author := authors block;
     cite_date := date block; cite_url := url block |}.

Section CompletionCode.

Variable ENCODER : Tokenizer.
Variable Index : Type.
Variable W : World Index.

(** The [for chunk in litellm.completion(...)] loop; [n] counts the chunks
    already seen and [response] is the text accumulated so far. *)
Fixpoint stream_chunks (session_id : str) (n : nat) (cs : list Chunk)
    (fail : option exn) (response : str) : Gen str :=
  match cs with
  | [] => match fail with Some e => raise e | None => ret response end
  | chunk :: rest =>
      call (UpdateCost response session_id)
           (update_cost W n response session_id) ;;
      match delta chunk with
      | Some (Some c) =>
          yield (Streaming c) ;;
          stream_chunks session_id (S n) rest fail (response ++ c)
      | _ => stream_chunks session_id (S n) rest fail response
      end
  end.

Definition prompt_tokens (prompt : list Message) : Z :=
  fold_right Z.add 0
    (map (fun message => len (encode ENCODER (content message)
                              ++ encode ENCODER (role message))) prompt).

Definition dashes : str := repeat 45%N 80.

(** The body of the [try]. *)
Definition talk_to_robot_body (index : Index) (query mode : str)
    (history : list Message) (k : Z) (log : str -> result unit)
    (session_id : str) : Gen unit :=
  (* 1. Find the most relevant blocks *)
  yield (Loading Semantic None) ;;
  top_k_blocks <- call (GetTopKBlocks query k) (get_top_k_blocks W index query k) ;;
  yield (Loading Semantic (Some (map citation_of top_k_blocks))) ;;
  (* 2. Generate a prompt *)
  yield (Loading Prompt None) ;;
  prompt <- lift (construct_prompt ENCODER query mode history top_k_blocks) ;;
  (* 3. Moderation *)
  let prompt_string := join (NL ++ NL) (map content prompt) in
  mod_res <- call (ModerationCreate [query; prompt_string])
                  (moderation_create W [query; prompt_string]) ;;
  (if existsb (fun x => x) (flagged mod_res) then
     let say line := call (Log line) (log line) in
     say dashes ;;
     say (lit "MODERATION REJECTED") ;;
     say (lit "MODERATION RESPONSE:" ++ NL ++ NL ++ results_json mod_res) ;;
     say (lit "REJECTED QUERY: " ++ query) ;;
     say (lit "REJECTED PROMPT:" ++ NL ++ NL ++ prompt_string) ;;
     say dashes ;;
     raise (ValueError
       (lit "This conversation was rejected by OpenAI's moderation filter. Sorry."))
   else ret tt) ;;
  (* 4. Count number of tokens left for completion (-50 for a buffer) *)
  let max_tokens_completion := NUM_TOKENS - prompt_tokens prompt - 50 in
  (* 5. Answer the user query *)
  yield (Loading Llm None) ;;
  (* check if budget exceeded for session *)
  current_cost <- call (GetCurrentCost session_id) (get_current_cost W session_id) ;;
  total_budget <- call (GetTotalBudget session_id) (get_total_budget W session_id) ;;
  (if Qle_bool current_cost total_budget
   then raise (Exception (lit "Exceeded the maximum budget for this session"))
   else ret tt) ;;
  let stream := completion W COMPLETIONS_MODEL prompt max_tokens_completion in
  call (Completion COMPLETIONS_MODEL prompt max_tokens_completion) (Ok tt) ;;
  response <- stream_chunks session_id 0 (chunks stream) (failure stream) [] ;;
  call (Log query) (log query) ;;
  call (Log response) (log response) ;;
  (* yield done state, possibly with followup questions *)
  followups <- call (MultisearchAuthored [query; response] (DEBUG_PRINT W))
                    (multisearch_authored W [query; response] (DEBUG_PRINT W)) ;;
  yield (Done followups).

(** The generator run to exhaustion: [except Exception as e] yields the
    error event. *)
Definition talk_to_robot_internal (index : Index) (query mode : str)
    (history : list Message) (k : Z) (log : str -> result unit)
    (session_id : str) : list Obs :=
  let run := talk_to_robot_body index query mode history k log session_id in
  match snd run with
  | Ok _ => fst run
  | Raise e => fst run ++ [Yield (Error (str_of_exn e))]
  end.

End CompletionCode.

(** ** wayyy simplified api *)

(** The dict [res] that [talk_to_robot_simple] serializes. *)
Record SimpleResult : Type := {
  response : str;
  citations : option (list (str * Citation))
}.

(** [citations[chr(ord('a') + i)] = c] over [enumerate(block['citations'])]. *)
Fixpoint letter_keys (i : Z) (cs : list Citation) : result (list (str * Citation)) :=
  match cs with
  | [] => Ok []
  | c :: rest =>
      match chr (ord_a + i) with
      | Raise e => Raise e
      | Ok letter =>
          match letter_keys (i + 1) rest with
          | Raise e => Raise e
          | Ok m => Ok ((letter, c) :: m)
          end
      end
  end.

Definition simple_step (res : SimpleResult) (block : Event) : result SimpleResult :=
  match block with
  | Loading Semantic (Some cs) =>
      match letter_keys 0 cs with
      | Raise e => Raise e
      | Ok m => Ok {| response := response res; citations := Some m |}
      end
  | Streaming c => Ok {| response := response res ++ c; citations := citations res |}
  | Error e => Ok {| response := e; citations := citations res |}
  | _ => Ok res
  end.

Fixpoint simple_loop (blocks : list Event) (res : SimpleResult) : result SimpleResult :=
  match blocks with
  | [] => Ok res
  | block :: rest =>
      match simple_step res block with
      | Raise e => Raise e
      | Ok res' => simple_loop rest res'
      end
  end.

Definition talk_to_robot_simple (ENCODER : Tokenizer) {Index : Type}
    (W : World Index) (index : Index) (query : str)
    (log : str -> result unit) : result SimpleResult :=
  let session_id := uuid4 W in
  match create_budget W (inject_Z 10) session_id with
  | Raise e => Raise e
  | Ok _ =>
      simple_loop
        (events (talk_to_robot_internal ENCODER Index W index query
                   (lit "default") [] STANDARD_K log session_id))
        {| response := []; citations := None |}
  end.

(** ** Concrete collaborators for the examples *)

(** A tokenizer with one token per code point: like cl100k_base it gives
    the empty text no token and every other text at least one. *)
Definition codepoint_tokenizer : Tokenizer :=
  {| encode := fun s => s; decode := fun ts => ts |}.

Definition sample_block : Block :=
  {| title := lit "Corrigibility"; authors := [lit "Soares"; lit "Fallenstein"];
     date := lit "2015-01-01"; url := lit "https://example.org/c";
     text := lit "A corrigible agent accepts correction." |}.

Definition quiet_log (line : str) : result unit := Ok tt.

(** A world in which every collaborator answers: one block is retrieved,
    moderation flags nothing, the completion arrives in three chunks (the
    second without content); the ledger and the followup search answer as
    given. *)
Definition sample_world (cost budget : Q) (followups : result (list Followup))
    : World unit :=
  {| get_top_k_blocks := fun _ _ _ => Ok [sample_block];
     moderation_create := fun _ =>
       Ok {| flagged := [false; false]; results_json := lit "[]" |};
     get_current_cost := fun _ => Ok cost;
     get_total_budget := fun _ => Ok budget;
     completion := fun _ _ _ =>
       {| chunks := [ {| delta := Some (Some (lit "Hi")) |};
                      {| delta := Some None |};
                      {| delta := Some (Some (lit " there")) |} ];
          failure := None |};
     update_cost := fun _ _ _ => Ok tt;
     multisearch_authored := fun _ _ => followups;
     create_budget := fun _ _ => Ok tt;
     uuid4 := lit "3f2b8c1e-session";
     DEBUG_PRINT := true |}.

Definition run_sample (cost budget : Q) (followups : result (list Followup))
    (mode : str) (history : list Message) : list Obs :=
  talk_to_robot_internal codepoint_tokenizer unit
    (sample_world cost budget followups) tt (lit "What is corrigibility?")
    mode history STANDARD_K quiet_log (lit "3f2b8c1e-session").

(** ** Vocabulary of the statements *)

(** The messages of an assembled prompt between the system message and the
    final user message. *)
Definition history_segment (prompt : list Message) : list Message :=
  removelast (tl prompt).

(** The measured cost of messages: the tokens of their contents, as the
    history loop counts them. *)
Definition messages_cost (ENCODER : Tokenizer) (ms : list Message) : Z :=
  fold_right Z.add 0 (map (fun m => token_count_of ENCODER (content m)) ms).

(** [m] is what the history loop makes of the entry [h], at some value of
    its running count. *)
Definition folded (ENCODER : Tokenizer) (h m : Message) : Prop :=
  exists token_count, m = fold_entry ENCODER h token_count.

Definition valid_mode (mode : str) : bool :=
  str_eqb mode (lit "default") || str_eqb mode (lit "concise")
  || str_eqb mode (lit "rookie").

Definition is_loading (e : Event) : bool :=
  match e with Loading _ _ => true | _ => false end.
Definition is_streaming (e : Event) : bool :=
  match e with Streaming _ => true | _ => false end.
Definition is_terminal (e : Event) : bool :=
  match e with Done _ | Error _ => true | _ => false end.

(** Loading events, then streaming events, then one terminal event. *)
Definition ordered (evs : list Event) : Prop :=
  exists ls ss t,
    evs = ls ++ ss ++ [t]
    /\ Forall (fun e => is_loading e = true) ls
    /\ Forall (fun e => is_streaming e = true) ss
    /\ is_terminal t = true.

(** The grammar of a run.  Before the completion is consumed the
    generator yields loading events and calls retrieval, moderation, the log
    and the ledger; while it is consumed it yields streaming events and
    updates the cost; then it closes. *)
Definition opening (o : Obs) : bool :=
  match o with
  | Yield (Loading _ _) => true
  | Calls (GetTopKBlocks _ _) | Calls (ModerationCreate _) | Calls (Log _)
  | Calls (GetCurrentCost _) | Calls (GetTotalBudget _)
  | Calls (Completion _ _ _) => true
  | _ => false
  end.

Definition stream_obs (o : Obs) : bool :=
  match o with
  | Yield (Streaming _) | Calls (UpdateCost _ _) => true
  | _ => false
  end.

Inductive closing {Index : Type} (W : World Index) : list Obs -> Prop :=
| closing_error m :
    closing W [Yield (Error m)]
| closing_log_query q m :
    closing W [Calls (Log q); Yield (Error m)]
| closing_log_response q r m :
    closing W [Calls (Log q); Calls (Log r); Yield (Error m)]
| closing_followups_failed q r qs dbg e :
    multisearch_authored W qs dbg = Raise e ->
    closing W [Calls (Log q); Calls (Log r); Calls (MultisearchAuthored qs dbg);
               Yield (Error (str_of_exn e))]
| closing_done q r qs dbg fs :
    multisearch_authored W qs dbg = Ok fs ->
    closing W [Calls (Log q); Calls (Log r); Calls (MultisearchAuthored qs dbg);
               Yield (Done fs)].

Inductive run_shape {Index : Type} (W : World Index) : list Obs -> Prop :=
| shape_open o t :
    opening o = true -> run_shape W t -> run_shape W (o :: t)
| shape_stream mid post :
    Forall (fun o => stream_obs o = true) mid -> closing W post ->
    run_shape W (mid ++ post).

(** A computation that only opens: loading events and the calls made
    before the completion is consumed. *)
Definition opens {A} (m : Gen A) : Prop := forallb opening (fst m) = true.

(** What a computation leaves once the [except] clause has turned its
    exception, if any, into the error event. *)
Definition caught {A} (m : Gen A) : list Obs :=
  match snd m with
  | Ok _ => fst m
  | Raise e => fst m ++ [Yield (Error (str_of_exn e))]
  end.

Definition is_completion_call (c : Call) : bool :=
  match c with Completion _ _ _ => true | _ => false end.

(** The rendered forms of the blocks standing at the positions [i],
    [i + 1], ... of the context. *)
Fixpoint block_strs (i : Z) (blocks : list Block) : result (list str) :=
  match blocks with
  | [] => Ok []
  | block :: rest =>
      match block_str i block with
      | Raise e => Raise e
      | Ok s =>
          match block_strs (i + 1) rest with
          | Raise e => Raise e
          | Ok ss => Ok (s :: ss)
          end
      end
  end.

Definition tokens_of (ENCODER : Tokenizer) (strs : list str) : Z :=
  fold_right Z.add 0 (map (token_count_of ENCODER) strs).

(** Added one after the other to a count that starts at [token_count],
    each of [strs] leaves the count within the context limit. *)
Fixpoint all_fit (ENCODER : Tokenizer) (token_count : Z) (strs : list str) : Prop :=
  match strs with
  | [] => True
  | s :: rest =>
      token_count + token_count_of ENCODER s <= CONTEXT_LIMIT
      /\ all_fit ENCODER (token_count + token_count_of ENCODER s) rest
  end.

(** [n] times the word "a", each after a space: a text that no tokenizer
    working word by word gives fewer than [n] tokens. *)
Definition words (n : nat) : str := List.concat (repeat (lit " a") n).

(** A user turn of [n] words. *)
Definition long_question (n : nat) : Message :=
  {| role := lit "user"; content := words n |}.

(** Six exchanges: twelve entries, the answers citing numbered sources. *)
Definition exchange (n : N) : list Message :=
  [ {| role := lit "user"; content := lit "Question " ++ [48 + n]%N |};
    {| role := lit "assistant";
       content := lit "See [" ++ [48 + n]%N ++ lit "], question " ++ [48 + n]%N |} ].

Definition sample_history : list Message :=
  flat_map exchange [1; 2; 3; 4; 5; 6]%N.

(** A block whose text alone is longer than the context limit. *)
Definition long_block : Block :=
  {| title := lit "Superintelligence"; authors := [lit "Bostrom"];
     date := lit "2014-07-03"; url := lit "https://example.org/s";
     text := words 3000 |}.

Definition sample_context : list Block := [sample_block; long_block; sample_block].

(** ** Further vocabulary *)

(** [s] has a numbered citation: a match of the pattern of [re.sub]. *)
Definition contains_citation (s : str) : Prop :=
  exists pre ds post,
    s = pre ++ [LBRACKET] ++ ds ++ [RBRACKET] ++ post
    /\ ds <> [] /\ forallb is_digit ds = true.

(** The automaton that recognizes the pattern: nothing pending, an opening
    bracket read, an opening bracket and digits read. *)
Inductive scan_state : Type := Outside | Opened | Digits.

Fixpoint scan (q : scan_state) (s : str) : bool :=
  match s with
  | [] => false
  | c :: r =>
      if N.eqb c LBRACKET then scan Opened r
      else match q with
           | Outside => scan Outside r
           | Opened => if is_digit c then scan Digits r else scan Outside r
           | Digits =>
               if is_digit c then scan Digits r
               else if N.eqb c RBRACKET then true
               else scan Outside r
           end
  end.

(** The text a state of the scrub stands for: what it holds back, then
    what is left to read. *)
Definition unread (pending : option (list N)) (r : str) : str :=
  match pending with
  | None => r
  | Some ds => LBRACKET :: rev ds ++ r
  end.

(** The text streamed in a trace: the contents of its streaming events. *)
Definition streamed (t : list Obs) : str :=
  flat_map (fun o => match o with Yield (Streaming c) => c | _ => [] end) t.

(** ** The cases of a run *)

Section RunCases.

Variable ENCODER : Tokenizer.
Variable Index : Type.
Variable W : World Index.
Variables (index : Index) (query mode : str) (history : list Message) (k : Z).
Variables (log : str -> result unit) (session_id : str).

(** What a run has left behind when it reaches each of its stages. *)
Definition until_retrieval : list Obs :=
  [Yield (Loading Semantic None); Calls (GetTopKBlocks query k)].

Definition until_prompt (blocks : list Block) : list Obs :=
  until_retrieval
  ++ [Yield (Loading Semantic (Some (map citation_of blocks)));
      Yield (Loading Prompt None)].

Definition prompt_string (prompt : list Message) : str :=
  join (NL ++ NL) (map content prompt).

Definition until_moderation (blocks : list Block) (prompt : list Message) : list Obs :=
  until_prompt blocks ++ [Calls (ModerationCreate [query; prompt_string prompt])].

Definition until_cost (blocks : list Block) (prompt : list Message) : list Obs :=
  until_moderation blocks prompt
  ++ [Yield (Loading Llm None); Calls (GetCurrentCost session_id)].

Definition until_budget (blocks : list Block) (prompt : list Message) : list Obs :=
  until_cost blocks prompt ++ [Calls (GetTotalBudget session_id)].

Definition max_tokens_completion (prompt : list Message) : Z :=
  NUM_TOKENS - prompt_tokens ENCODER prompt - 50.

Definition until_completion (blocks : list Block) (prompt : list Message) : list Obs :=
  until_budget blocks prompt
  ++ [Calls (Completion COMPLETIONS_MODEL prompt (max_tokens_completion prompt))].

(** The lines logged when moderation flags the conversation. *)
Definition rejection_lines (mod_res : ModerationResult) (prompt : list Message)
    : list str :=
  [ dashes;
    lit "MODERATION REJECTED";
    lit "MODERATION RESPONSE:" ++ NL ++ NL ++ results_json mod_res;
    lit "REJECTED QUERY: " ++ query;
    lit "REJECTED PROMPT:" ++ NL ++ NL ++ prompt_string prompt;
    dashes ].

Definition REJECTED : str :=
  lit "This conversation was rejected by OpenAI's moderation filter. Sorry.".

(** Logging lines one after the other, as far as the log goes. *)
Fixpoint log_lines (lines : list str) : Gen unit :=
  match lines with
  | [] => ret tt
  | line :: rest => call (Log line) (log line) ;; log_lines rest
  end.

(** What the body does when moderation flags the conversation. *)
Definition rejection (mod_res : ModerationResult) (prompt : list Message) : Gen unit :=
  let say line := call (Log line) (log line) in
  say dashes ;;
  say (lit "MODERATION REJECTED") ;;
  say (lit "MODERATION RESPONSE:" ++ NL ++ NL ++ results_json mod_res) ;;
  say (lit "REJECTED QUERY: " ++ query) ;;
  say (lit "REJECTED PROMPT:" ++ NL ++ NL ++ prompt_string prompt) ;;
  say dashes ;;
  raise (ValueError REJECTED).

(** The end of the body, once the response is complete. *)
Definition finish (response : str) : Gen unit :=
  call (Log query) (log query) ;;
  call (Log response) (log response) ;;
  followups <- call (MultisearchAuthored [query; response] (DEBUG_PRINT W))
                    (multisearch_authored W [query; response] (DEBUG_PRINT W)) ;;
  yield (Done followups).

(** The stream of the completion, as the loop consumes it. *)
Definition consumed (prompt : list Message) : Gen str :=
  let stream := completion W COMPLETIONS_MODEL prompt (max_tokens_completion prompt) in
  stream_chunks Index W session_id 0 (chunks stream) (failure stream) [].

Inductive run_case : list Obs -> Prop :=
| retrieval_failed e :
    get_top_k_blocks W index query k = Raise e ->
    run_case (until_retrieval ++ [Yield (Error (str_of_exn e))])
| prompt_failed blocks e :
    get_top_k_blocks W index query k = Ok blocks ->
    construct_prompt ENCODER query mode history blocks = Raise e ->
    run_case (until_prompt blocks ++ [Yield (Error (str_of_exn e))])
| moderation_failed blocks prompt e :
    get_top_k_blocks W index query k = Ok blocks ->
    construct_prompt ENCODER query mode history blocks = Ok prompt ->
    moderation_create W [query; prompt_string prompt] = Raise e ->
    run_case (until_moderation blocks prompt ++ [Yield (Error (str_of_exn e))])
| moderation_flagged blocks prompt mod_res :
    get_top_k_blocks W index query k = Ok blocks ->
    construct_prompt ENCODER query mode history blocks = Ok prompt ->
    moderation_create W [query; prompt_string prompt] = Ok mod_res ->
    existsb (fun x => x) (flagged mod_res) = true ->
    run_case (until_moderation blocks prompt ++ caught (rejection mod_res prompt))
| cost_failed blocks prompt mod_res e :
    get_top_k_blocks W index query k = Ok blocks ->
    construct_prompt ENCODER query mode history blocks = Ok prompt ->
    moderation_create W [query; prompt_string prompt] = Ok mod_res ->
    existsb (fun x => x) (flagged mod_res) = false ->
    get_current_cost W session_id = Raise e ->
    run_case (until_cost blocks prompt ++ [Yield (Error (str_of_exn e))])
| budget_failed blocks prompt mod_res cost e :
    get_top_k_blocks W index query k = Ok blocks ->
    construct_prompt ENCODER query mode history blocks = Ok prompt ->
    moderation_create W [query; prompt_string prompt] = Ok mod_res ->
    existsb (fun x => x) (flagged mod_res) = false ->
    get_current_cost W session_id = Ok cost ->
    get_total_budget W session_id = Raise e ->
    run_case (until_budget blocks prompt ++ [Yield (Error (str_of_exn e))])
| gate_closed blocks prompt mod_res cost budget :
    get_top_k_blocks W index query k = Ok blocks ->
    construct_prompt ENCODER query mode history blocks = Ok prompt ->
    moderation_create W [query; prompt_string prompt] = Ok mod_res ->
    existsb (fun x => x) (flagged mod_res) = false ->
    get_current_cost W session_id = Ok cost ->
    get_total_budget W session_id = Ok budget ->
    Qle_bool cost budget = true ->
    run_case (until_budget blocks prompt
              ++ [Yield (Error (lit "Exceeded the maximum budget for this session"))])
| generated blocks prompt mod_res cost budget :
    get_top_k_blocks W index query k = Ok blocks ->
    construct_prompt ENCODER query mode history blocks = Ok prompt ->
    moderation_create W [query; prompt_string prompt] = Ok mod_res ->
    existsb (fun x => x) (flagged mod_res) = false ->
    get_current_cost W session_id = Ok cost ->
    get_total_budget W session_id = Ok budget ->
    Qle_bool cost budget = false ->
    run_case (until_completion blocks prompt
              ++ caught (response <- consumed prompt ;; finish response)).

End RunCases.

(** The collaborators a run turns to, the log and the cost updates apart. *)
Inductive Service : Type :=
| Retrieval | Moderation | LedgerCost | LedgerBudget | CompletionService | Followups.

Definition service_of (o : Obs) : list Service :=
  match o with
  | Calls (GetTopKBlocks _ _) => [Retrieval]
  | Calls (ModerationCreate _) => [Moderation]
  | Calls (GetCurrentCost _) => [LedgerCost]
  | Calls (GetTotalBudget _) => [LedgerBudget]
  | Calls (Completion _ _ _) => [CompletionService]
  | Calls (MultisearchAuthored _ _) => [Followups]
  | _ => []
  end.

Definition services (t : list Obs) : list Service := flat_map service_of t.

Definition PROTOCOL : list Service :=
  [Retrieval; Moderation; LedgerCost; LedgerBudget; CompletionService; Followups].

(** The session a ledger call is about. *)
Definition ledger_user (c : Call) : option str :=
  match c with
  | GetCurrentCost u | GetTotalBudget u | UpdateCost _ u | CreateBudget _ u => Some u
  | _ => None
  end.

(** ** The event-stream adapter *)

(** What [talk_to_robot] does, in order: the calls it makes and the JSON
    texts it yields.  [dumps] is [json.dumps] on an event. *)
Inductive Sent : Type :=
| Json (s : str)
| Invoked (c : Call).

Definition talk_to_robot (dumps : Event -> str) (ENCODER : Tokenizer)
    {Index : Type} (W : World Index) (index : Index) (query mode : str)
    (history : list Message) (k : Z) (log : str -> result unit)
    : list Sent * result unit :=
  let session_id := uuid4 W in
  match create_budget W (inject_Z 10) session_id with
  | Raise e => ([Invoked (CreateBudget (inject_Z 10) session_id)], Raise e)
  | Ok _ =>
      (Invoked (CreateBudget (inject_Z 10) session_id)
       :: map (fun o => match o with
                        | Yield block => Json (dumps block)
                        | Calls c => Invoked c
                        end)
              (talk_to_robot_internal ENCODER Index W index query mode history
                 k log session_id),
       Ok tt)
  end.

(** ** Further sample worlds *)

(** Like [sample_world] with the cost above the budget, but with the
    retrieval and the moderation flags as given. *)
Definition scenario_world (retrieved : result (list Block)) (flags : list bool)
    : World unit :=
  {| get_top_k_blocks := fun _ _ _ => retrieved;
     moderation_create := fun _ =>
       Ok {| flagged := flags; results_json := lit "[]" |};
     get_current_cost := fun _ => Ok (12 # 1);
     get_total_budget := fun _ => Ok (10 # 1);
     completion := fun _ _ _ =>
       {| chunks := [ {| delta := Some (Some (lit "Hi")) |};
                      {| delta := Some None |};
                      {| delta := Some (Some (lit " there")) |} ];
          failure := None |};
     update_cost := fun _ _ _ => Ok tt;
     multisearch_authored := fun _ _ => Ok [];
     create_budget := fun _ _ => Ok tt;
     uuid4 := lit "3f2b8c1e-session";
     DEBUG_PRINT := true |}.

Definition run_scenario (retrieved : result (list Block)) (flags : list bool)
    : list Obs :=
  talk_to_robot_internal codepoint_tokenizer unit (scenario_world retrieved flags) tt
    (lit "What is corrigibility?") (lit "default") [] STANDARD_K quiet_log
    (lit "3f2b8c1e-session").

(** A history whose middle entry alone goes over the history limit. *)
Definition crowded_history : list Message :=
  [ long_question 5; long_question 1100;
    {| role := lit "assistant"; content := lit "As shown in [3] and [14]." |} ].

(** ** The tokenizer where it refuses a text *)

(** [ENCODER.encode(text)], as the file calls it, raises on a text that
    holds a special token of the encoding.  [refused text] is the exception
    it raises, if it raises; on every other text it returns the tokens of
    [tokens]. *)
Record CheckedTokenizer : Type := {
  tokens : Tokenizer;
  refused : str -> option exn
}.

Definition try_encode (T : CheckedTokenizer) (text : str) : result (list N) :=
  match refused T text with
  | Some e => Raise e
  | None => Ok (encode (tokens T) text)
  end.

Section CheckedPromptCode.

Variable ENCODER : CheckedTokenizer.

(** [cap], with the raise of its [encode]. *)
Definition cap_checked (text : str) (max_tokens : Z) : result str :=
  if max_tokens <=? 0 then Ok (lit "...")
  else
    match try_encode ENCODER text with
    | Raise e => Raise e
    | Ok encoded_text =>
        if len encoded_text <=? max_tokens then Ok text
        else Ok (decode (tokens ENCODER)
                   (firstn (Z.to_nat max_tokens) encoded_text) ++ lit " ...")
    end.

(** The loop over the context, with the raise of [encode] on each block. *)
Fixpoint add_blocks_checked (i : Z) (context : list Block)
    (source_prompt : str) (token_count : Z) : result str :=
  match context with
  | [] => Ok source_prompt
  | block :: rest =>
      match block_str i block with
      | Raise e => Raise e
      | Ok bs =>
          match try_encode ENCODER bs with
          | Raise e => Raise e
          | Ok encoded =>
              let block_tc := len encoded in
              if token_count + block_tc >? CONTEXT_LIMIT
              then match cap_checked bs (CONTEXT_LIMIT - token_count) with
                   | Raise e => Raise e
                   | Ok capped => Ok (source_prompt ++ capped)
                   end
              else add_blocks_checked (i + 1) rest (source_prompt ++ bs)
                     (token_count + block_tc)
          end
      end
  end.

Definition fold_entry_checked (message : Message) (token_count : Z)
    : result Message :=
  if str_eqb (role message) (lit "user")
  then Ok {| role := lit "user"; content := lit "Q: " ++ content message |}
  else
    match cap_checked (content message) (HISTORY_LIMIT - token_count) with
    | Raise e => Raise e
    | Ok capped =>
        Ok {| role := lit "assistant"; content := censor_sources capped |}
    end.

(** The loop over the history, with the raises of [cap] and of the
    [encode] that counts each message. *)
Fixpoint collect_history_checked (messages : list Message) (token_count : Z)
    (history_trnc : list Message) : result (list Message) :=
  match messages with
  | [] => Ok history_trnc
  | message :: rest =>
      match fold_entry_checked message token_count with
      | Raise e => Raise e
      | Ok m =>
          let history_trnc := history_trnc ++ [m] in
          match try_encode ENCODER (content m) with
          | Raise e => Raise e
          | Ok encoded =>
              let token_count := token_count + len encoded in
              if token_count >? HISTORY_LIMIT then Ok history_trnc
              else collect_history_checked rest token_count history_trnc
          end
      end
  end.

Definition system_message_checked (history : list Message) (context : list Block)
    : result Message :=
  match try_encode ENCODER SOURCE_INTRO with
  | Raise e => Raise e
  | Ok encoded =>
      match add_blocks_checked 0 context SOURCE_INTRO (len encoded) with
      | Raise e => Raise e
      | Ok source_prompt =>
          let source_prompt := strip source_prompt in
          let source_prompt :=
            if len history >? 0 then source_prompt ++ HISTORY_CAVEAT
            else source_prompt in
          Ok {| role := lit "system"; content := strip source_prompt |}
      end
  end.

(** [construct_prompt] with every raise it can meet, in the order of the
    code: the system message, the history, and last the mode. *)
Definition construct_prompt_checked (query mode : str) (history : list Message)
    (context : list Block) : result (list Message) :=
  match system_message_checked history context with
  | Raise e => Raise e
  | Ok system =>
      match collect_history_checked (last_entries_reversed history) 0 [] with
      | Raise e => Raise e
      | Ok history_trnc =>
          match question_prompt query mode with
          | Raise e => Raise e
          | Ok question =>
              Ok ([system] ++ rev history_trnc
                  ++ [{| role := lit "user"; content := question |}])
          end
      end
  end.

(** The tokens of the prompt, contents and roles, message by message. *)
Fixpoint prompt_tokens_checked (prompt : list Message) : result Z :=
  match prompt with
  | [] => Ok 0
  | message :: rest =>
      match try_encode ENCODER (content message) with
      | Raise e => Raise e
      | Ok c =>
          match try_encode ENCODER (role message) with
          | Raise e => Raise e
          | Ok r =>
              match prompt_tokens_checked rest with
              | Raise e => Raise e
              | Ok n => Ok (len (c ++ r) + n)
              end
          end
      end
  end.

Variable Index : Type.
Variable W : World Index.

(** The body of the [try], with those raises. *)
Definition talk_to_robot_body_checked (index : Index) (query mode : str)
    (history : list Message) (k : Z) (log : str -> result unit)
    (session_id : str) : Gen unit :=
  yield (Loading Semantic None) ;;
  top_k_blocks <- call (GetTopKBlocks query k) (get_top_k_blocks W index query k) ;;
  yield (Loading Semantic (Some (map citation_of top_k_blocks))) ;;
  yield (Loading Prompt None) ;;
  prompt <- lift (construct_prompt_checked query mode history top_k_blocks) ;;
  let prompt_string := join (NL ++ NL) (map content prompt) in
  mod_res <- call (ModerationCreate [query; prompt_string])
                  (moderation_create W [query; prompt_string]) ;;
  (if existsb (fun x => x) (flagged mod_res) then
     let say line := call (Log line) (log line) in
     say dashes ;;
     say (lit "MODERATION REJECTED") ;;
     say (lit "MODERATION RESPONSE:" ++ NL ++ NL ++ results_json mod_res) ;;
     say (lit "REJECTED QUERY: " ++ query) ;;
     say (lit "REJECTED PROMPT:" ++ NL ++ NL ++ prompt_string) ;;
     say dashes ;;
     raise (ValueError
       (lit "This conversation was rejected by OpenAI's moderation filter. Sorry."))
   else ret tt) ;;
  counted <- lift (prompt_tokens_checked prompt) ;;
  let max_tokens_completion := NUM_TOKENS - counted - 50 in
  yield (Loading Llm None) ;;
  current_cost <- call (GetCurrentCost session_id) (get_current_cost W session_id) ;;
  total_budget <- call (GetTotalBudget session_id) (get_total_budget W session_id) ;;
  (if Qle_bool current_cost total_budget
   then raise (Exception (lit "Exceeded the maximum budget for this session"))
   else ret tt) ;;
  let stream := completion W COMPLETIONS_MODEL prompt max_tokens_completion in
  call (Completion COMPLETIONS_MODEL prompt max_tokens_completion) (Ok tt) ;;
  response <- stream_chunks Index W session_id 0 (chunks stream) (failure stream) [] ;;
  call (Log query) (log query) ;;
  call (Log response) (log response) ;;
  followups <- call (MultisearchAuthored [query; response] (DEBUG_PRINT W))
                    (multisearch_authored W [query; response] (DEBUG_PRINT W)) ;;
  yield (Done followups).

Definition talk_to_robot_internal_checked (index : Index) (query mode : str)
    (history : list Message) (k : Z) (log : str -> result unit)
    (session_id : str) : list Obs :=
  caught (talk_to_robot_body_checked index query mode history k log session_id).

End CheckedPromptCode.

(** A tokenizer that refuses nothing, and one that refuses the texts
    holding the end-of-text token. *)
Definition accepting (T : Tokenizer) : CheckedTokenizer :=
  {| tokens := T; refused := fun _ => None |}.

Fixpoint starts_with (prefix s : str) : bool :=
  match prefix, s with
  | [], _ => true
  | p :: prefix', c :: s' => N.eqb p c && starts_with prefix' s'
  | _ :: _, [] => false
  end.

Fixpoint holds (needle s : str) : bool :=
  starts_with needle s
  || match s with
     | [] => false
     | _ :: s' => holds needle s'
     end.

Definition ENDOFTEXT : str := lit "<|endoftext|>".

Definition DISALLOWED : exn :=
  ValueError (lit "Encountered text corresponding to disallowed special token '<|endoftext|>'.").

Definition strict (T : Tokenizer) : CheckedTokenizer :=
  {| tokens := T;
     refused := fun s => if holds ENDOFTEXT s then Some DISALLOWED else None |}.

(** * Properties *)

(** ** Strings *)

Lemma str_eqb_spec (a b : str) : reflect (a = b) (str_eqb a b).
Proof.
  revert b; induction a as [|x a IH]; intros [|y b]; simpl;
    try (constructor; congruence).
  destruct (N.eqb_spec x y) as [->|Hxy]; simpl.
  - destruct (IH b) as [->|Hab]; constructor; congruence.
  - constructor; congruence.
Qed.

Lemma str_eqb_refl (a : str) : str_eqb a a = true.
Proof. destruct (str_eqb_spec a a); congruence. Qed.

Lemma context_limit_value : CONTEXT_LIMIT = 2047.
Proof. reflexivity. Qed.

Lemma history_limit_value : HISTORY_LIMIT = 1023.
Proof. reflexivity. Qed.

(** ** The allocator: [cap] *)

Section CapFacts.

Variable ENCODER : Tokenizer.

Lemma cap_nonpositive (text : str) (max_tokens : Z) :
  max_tokens <= 0 -> cap ENCODER text max_tokens = lit "...".
Proof.
  intros H; unfold cap.
  destruct (Z.leb_spec max_tokens 0); [reflexivity | lia].
Qed.

Lemma cap_fits (text : str) (max_tokens : Z) :
  0 < max_tokens -> token_count_of ENCODER text <= max_tokens ->
  cap ENCODER text max_tokens = text.
Proof.
  intros Hpos Hfit; unfold cap, token_count_of in *.
  destruct (Z.leb_spec max_tokens 0); [lia|].
  cbv zeta. destruct (Z.leb_spec (len (encode ENCODER text)) max_tokens);
    [reflexivity | lia].
Qed.

Lemma cap_truncates (text : str) (max_tokens : Z) :
  0 < max_tokens -> max_tokens < token_count_of ENCODER text ->
  cap ENCODER text max_tokens
  = decode ENCODER (firstn (Z.to_nat max_tokens) (encode ENCODER text))
    ++ lit " ...".
Proof.
  intros Hpos Hbig; unfold cap, token_count_of in *.
  destruct (Z.leb_spec max_tokens 0); [lia|].
  cbv zeta. destruct (Z.leb_spec (len (encode ENCODER text)) max_tokens);
    [lia | reflexivity].
Qed.

(** With a ceiling of zero the result is the marker, and the marker is
    not free: whenever the tokenizer gives it a token, the result has more
    tokens than the ceiling. *)
Lemma cap_zero_over_ceiling (text : str) :
  encode ENCODER (lit "...") <> [] ->
  0 < token_count_of ENCODER (cap ENCODER text 0).
Proof.
  intros Hne. rewrite cap_nonpositive by lia.
  unfold token_count_of, len.
  destruct (encode ENCODER (lit "...")); [congruence | simpl; lia].
Qed.

(** C3, as amended: what [cap] returns in each of its three cases.  At a
    ceiling of zero or less it is the marker; at a positive ceiling a text
    that fits is returned as it is, and so re-tokenizes within the ceiling;
    a longer text is cut to its first [max_tokens] tokens, decoded, and the
    marker " ..." is appended after them. *)
Theorem cap_cases (text : str) (max_tokens : Z) :
  (max_tokens <= 0 -> cap ENCODER text max_tokens = lit "...")
  /\ (0 < max_tokens -> token_count_of ENCODER text <= max_tokens ->
      cap ENCODER text max_tokens = text
      /\ token_count_of ENCODER (cap ENCODER text max_tokens) <= max_tokens)
  /\ (0 < max_tokens -> max_tokens < token_count_of ENCODER text ->
      exists kept,
        kept = firstn (Z.to_nat max_tokens) (encode ENCODER text)
        /\ len kept = max_tokens
        /\ cap ENCODER text max_tokens = decode ENCODER kept ++ lit " ...").
Proof.
  split; [apply cap_nonpositive|]. split.
  - intros Hpos Hfit. rewrite cap_fits by assumption. split; [reflexivity | assumption].
  - intros Hpos Hbig. eexists; split; [reflexivity|]. split.
    + unfold token_count_of, len in *. rewrite length_firstn. lia.
    + apply cap_truncates; assumption.
Qed.

(** C8, as amended: at a positive ceiling, a text within the ceiling is
    returned unchanged. *)
Theorem cap_identity_when_fits (text : str) (max_tokens : Z) :
  0 < max_tokens -> token_count_of ENCODER text <= max_tokens ->
  cap ENCODER text max_tokens = text.
Proof. apply cap_fits. Qed.

End CapFacts.

(** C3 fails at the ceiling 0: the result is the marker, which has tokens
    of its own. *)
Lemma cap_bound_fails_at_zero :
  ~ (0 <= 0 ->
     token_count_of codepoint_tokenizer (cap codepoint_tokenizer (lit "") 0) <= 0).
Proof. intros H. specialize (H (Z.le_refl 0)). vm_compute in H. apply H. reflexivity. Qed.

(** The same at a positive ceiling, when the text is cut: the marker comes
    on top of the tokens kept. *)
Lemma cap_bound_fails_when_cut :
  token_count_of codepoint_tokenizer
    (cap codepoint_tokenizer (lit "one two three") 3) = 7.
Proof. reflexivity. Qed.

Lemma cap_cases_witness :
  cap codepoint_tokenizer (lit "abc") 0 = lit "..."
  /\ (cap codepoint_tokenizer (lit "abc") 5 = lit "abc"
      /\ token_count_of codepoint_tokenizer (cap codepoint_tokenizer (lit "abc") 5) <= 5)
  /\ (exists kept,
        kept = firstn (Z.to_nat 2) (encode codepoint_tokenizer (lit "abc"))
        /\ len kept = 2
        /\ cap codepoint_tokenizer (lit "abc") 2
           = decode codepoint_tokenizer kept ++ lit " ...").
Proof.
  split; [|split].
  - apply (cap_cases codepoint_tokenizer (lit "abc") 0). lia.
  - apply (cap_cases codepoint_tokenizer (lit "abc") 5); [lia | vm_compute; discriminate].
  - apply (cap_cases codepoint_tokenizer (lit "abc") 2); [lia | vm_compute; reflexivity].
Defined.

(** C8 fails at the ceiling 0: the empty text has no token, yet the marker
    is returned. *)
Lemma cap_identity_fails_at_zero :
  ~ (0 <= 0 -> token_count_of codepoint_tokenizer (lit "") <= 0 ->
     cap codepoint_tokenizer (lit "") 0 = lit "").
Proof.
  intros H. specialize (H (Z.le_refl 0)).
  assert (Hc : token_count_of codepoint_tokenizer (lit "") <= 0) by (vm_compute; discriminate).
  specialize (H Hc). vm_compute in H. discriminate H.
Qed.

Lemma cap_identity_when_fits_witness :
  cap codepoint_tokenizer (lit "abc") 5 = lit "abc".
Proof.
  apply (cap_identity_when_fits codepoint_tokenizer (lit "abc") 5).
  - lia.
  - vm_compute; discriminate.
Defined.

(** ** The history loop *)

Lemma Forall2_rev {A B} (R : A -> B -> Prop) (l1 : list A) (l2 : list B) :
  Forall2 R l1 l2 -> Forall2 R (rev l1) (rev l2).
Proof.
  induction 1 as [|x y l1 l2 Hxy _ IH]; simpl.
  - constructor.
  - apply Forall2_app; [exact IH | repeat constructor; exact Hxy].
Qed.

Lemma tl_rev_removelast {A} (l : list A) : tl (rev l) = rev (removelast l).
Proof.
  destruct l as [|a l] using rev_ind; [reflexivity|].
  rewrite rev_unit, removelast_last. reflexivity.
Qed.

Section HistoryFacts.

Variable ENCODER : Tokenizer.

Lemma messages_cost_app (a b : list Message) :
  messages_cost ENCODER (a ++ b) = messages_cost ENCODER a + messages_cost ENCODER b.
Proof.
  unfold messages_cost. induction a as [|m a IH]; simpl; [reflexivity|].
  rewrite IH. lia.
Qed.

Lemma messages_cost_rev (l : list Message) :
  messages_cost ENCODER (rev l) = messages_cost ENCODER l.
Proof.
  induction l as [|m l IH]; simpl; [reflexivity|].
  rewrite messages_cost_app, IH. unfold messages_cost; simpl. lia.
Qed.

(** The loop invariant.  What the loop adds to [history_trnc] is made of
    the first entries it is given, in order; and as long as the loop goes
    on, the running count is within the limit, so everything it collected
    before the last message is within the limit. *)
Lemma collect_history_inv (messages : list Message) :
  forall token_count history_trnc,
  exists collected,
    collect_history ENCODER messages token_count history_trnc
      = history_trnc ++ collected
    /\ (length collected <= length messages)%nat
    /\ Forall2 (folded ENCODER) (firstn (length collected) messages) collected
    /\ (token_count <= HISTORY_LIMIT ->
        token_count + messages_cost ENCODER (removelast collected) <= HISTORY_LIMIT).
Proof.
  induction messages as [|message rest IH]; intros token_count history_trnc.
  - exists []. simpl. rewrite app_nil_r.
    repeat split; [lia | constructor | unfold messages_cost; simpl; lia].
  - cbn [collect_history]. cbv zeta.
    set (m := fold_entry ENCODER message token_count).
    set (tc' := token_count + len (encode ENCODER (content m))).
    destruct (Z.gtb_spec tc' HISTORY_LIMIT) as [Hover|Hfits].
    + exists [m]. simpl. repeat split.
      * lia.
      * constructor; [exists token_count; reflexivity | constructor].
      * unfold messages_cost; simpl; lia.
    + destruct (IH tc' (history_trnc ++ [m])) as (collected & Heq & Hlen & Hfold & Hcost).
      exists (m :: collected). rewrite Heq, <- app_assoc. simpl. repeat split.
      * lia.
      * constructor; [exists token_count; reflexivity | exact Hfold].
      * intros Htc. destruct collected as [|m' collected'].
        -- unfold messages_cost; simpl; lia.
        -- specialize (Hcost Hfits).
           change (messages_cost ENCODER (m :: removelast (m' :: collected')))
             with (token_count_of ENCODER (content m)
                   + messages_cost ENCODER (removelast (m' :: collected'))).
           unfold token_count_of. subst tc'. lia.
Qed.

(** The assembled prompt, taken apart. *)
Lemma construct_prompt_parts (query mode : str) (history : list Message)
    (context : list Block) (prompt : list Message) :
  construct_prompt ENCODER query mode history context = Ok prompt ->
  exists system question,
    system_message ENCODER history context = Ok system
    /\ question_prompt query mode = Ok question
    /\ prompt = [system]
        ++ rev (collect_history ENCODER (last_entries_reversed history) 0 [])
        ++ [{| role := lit "user"; content := question |}].
Proof.
  unfold construct_prompt.
  destruct (system_message ENCODER history context) as [system|e]; [|discriminate].
  destruct (question_prompt query mode) as [question|e]; [|discriminate].
  intros H; injection H as <-. exists system, question. auto.
Qed.

Lemma system_message_role (history : list Message) (context : list Block)
    (system : Message) :
  system_message ENCODER history context = Ok system -> role system = lit "system".
Proof.
  unfold system_message.
  destruct (add_blocks _ _ _ _ _) as [sp|e]; [|discriminate].
  intros H; injection H as <-. reflexivity.
Qed.

Lemma history_segment_parts (system final : Message) (kept : list Message) :
  history_segment ([system] ++ kept ++ [final]) = kept.
Proof. unfold history_segment. simpl. apply removelast_last. Qed.

(** The code keeps nine entries at most: the slice stops before the tenth
    entry from the end. *)
Lemma kept_history_at_most_nine (history : list Message) :
  (length (collect_history ENCODER (last_entries_reversed history) 0 []) <= 9)%nat.
Proof.
  destruct (collect_history_inv (last_entries_reversed history) 0 [])
    as (collected & -> & Hlen & _).
  simpl. unfold last_entries_reversed in Hlen.
  pose proof (firstn_le_length 9 (rev history)). lia.
Qed.

(** C5, as amended: in every assembled prompt, the history messages other
    than the oldest one kept (the last one the loop collected) cost at most
    [int(NUM_TOKENS * HISTORY_FRACTION)] tokens in total. *)
Theorem history_cost_bounded_before_last_collected
    (query mode : str) (history : list Message) (context : list Block)
    (prompt : list Message) :
  construct_prompt ENCODER query mode history context = Ok prompt ->
  messages_cost ENCODER (tl (history_segment prompt)) <= HISTORY_LIMIT.
Proof.
  intros H. apply construct_prompt_parts in H as (system & question & _ & _ & ->).
  rewrite history_segment_parts.
  destruct (collect_history_inv (last_entries_reversed history) 0 [])
    as (collected & -> & _ & _ & Hcost).
  simpl app. rewrite tl_rev_removelast, messages_cost_rev.
  assert (0 <= HISTORY_LIMIT) by (rewrite history_limit_value; lia).
  specialize (Hcost H). lia.
Qed.

(** C9: the history messages of an assembled prompt stand between the
    system message and the final user message, are at most ten, and are, in
    chronological order, the foldings of the last entries of the history. *)
Theorem history_kept_is_recent_suffix
    (query mode : str) (history : list Message) (context : list Block)
    (prompt : list Message) :
  construct_prompt ENCODER query mode history context = Ok prompt ->
  exists system kept final,
    prompt = [system] ++ kept ++ [final]
    /\ role system = lit "system"
    /\ role final = lit "user"
    /\ (length kept <= 10)%nat
    /\ Forall2 (folded ENCODER)
         (skipn (length history - length kept) history) kept.
Proof.
  intros H. apply construct_prompt_parts in H as (system & question & Hsys & _ & ->).
  pose proof (kept_history_at_most_nine history) as Hnine.
  destruct (collect_history_inv (last_entries_reversed history) 0 [])
    as (collected & Heq & Hlen & Hfold & _).
  rewrite Heq in *. simpl app in *.
  exists system, (rev collected), {| role := lit "user"; content := question |}.
  repeat split.
  - eapply system_message_role; eassumption.
  - rewrite length_rev. lia.
  - rewrite length_rev. unfold last_entries_reversed in Hfold.
    rewrite firstn_firstn, Nat.min_l, firstn_rev in Hfold by lia.
    apply Forall2_rev in Hfold. rewrite rev_involutive in Hfold. exact Hfold.
Qed.

End HistoryFacts.

(** ** The orchestrator *)

Lemma events_app (a b : list Obs) : events (a ++ b) = events a ++ events b.
Proof. unfold events. apply flat_map_app. Qed.

Lemma caught_bind_ok {A B} (m : Gen A) (f : A -> Gen B) (a : A) :
  snd m = Ok a -> caught (bind m f) = fst m ++ caught (f a).
Proof.
  unfold caught, bind. intros ->. simpl.
  destruct (snd (f a)); [reflexivity | symmetry; apply app_assoc].
Qed.

Lemma caught_bind_raise {A B} (m : Gen A) (f : A -> Gen B) (e : exn) :
  snd m = Raise e -> caught (bind m f) = fst m ++ [Yield (Error (str_of_exn e))].
Proof. unfold caught, bind. intros ->. reflexivity. Qed.

Section RunFacts.

Variable ENCODER : Tokenizer.
Variable Index : Type.
Variable W : World Index.

(** *** The monad *)

Lemma bind_call_ok {A B} (c : Call) (a : A) (f : A -> Gen B) :
  bind (call c (Ok a)) f = ([Calls c] ++ fst (f a), snd (f a)).
Proof. reflexivity. Qed.

Lemma bind_call_raise {A B} (c : Call) (e : exn) (f : A -> Gen B) :
  bind (call c (Raise e)) f = ([Calls c], Raise e).
Proof. reflexivity. Qed.

(** *** The grammar of a run *)

Lemma opens_bind {A B} (m : Gen A) (f : A -> Gen B) :
  opens m -> (forall a, opens (f a)) -> opens (bind m f).
Proof.
  unfold opens, bind. intros Hm Hf. destruct (snd m) as [a|e]; simpl; [|exact Hm].
  rewrite forallb_app, Hm. apply Hf.
Qed.

Lemma opens_call {A} (c : Call) (r : result A) :
  opening (Calls c) = true -> opens (call c r).
Proof. unfold opens; simpl. intros ->. reflexivity. Qed.

Lemma stream_chunks_obs (session_id : str) (cs : list Chunk) (fail : option exn) :
  forall n response,
    Forall (fun o => stream_obs o = true)
      (fst (stream_chunks Index W session_id n cs fail response)).
Proof.
  induction cs as [|chunk rest IH]; intros n response; cbn [stream_chunks].
  - destruct fail; constructor.
  - cbn [bind call fst snd].
    destruct (update_cost W n response session_id); cbn [fst snd].
    + constructor; [reflexivity|].
      destruct (delta chunk) as [[c|]|]; cbn [bind yield fst snd app];
        [constructor; [reflexivity|] | | ]; apply IH.
    + repeat constructor.
Qed.

Lemma run_shape_app (pre t : list Obs) :
  forallb opening pre = true -> run_shape W t -> run_shape W (pre ++ t).
Proof.
  induction pre as [|o pre IH]; simpl; intros Hpre Ht; [exact Ht|].
  apply andb_prop in Hpre as [Ho Hpre]. constructor; auto.
Qed.

Lemma run_shape_error (m : str) : run_shape W [Yield (Error m)].
Proof. apply (shape_stream W [] [Yield (Error m)]); constructor. Qed.

(** An opening computation followed by one that completes the run. *)
Lemma shape_after_opening {A B} (m : Gen A) (f : A -> Gen B) :
  opens m ->
  (forall a, snd m = Ok a -> run_shape W (caught (f a))) ->
  run_shape W (caught (bind m f)).
Proof.
  unfold opens, caught, bind. intros Hm Hf.
  destruct (snd m) as [a|e] eqn:Hs; simpl.
  - specialize (Hf a eq_refl). destruct (snd (f a)).
    + apply run_shape_app; assumption.
    + rewrite <- app_assoc. apply run_shape_app; assumption.
  - apply run_shape_app; [assumption | apply run_shape_error].
Qed.

(** The consumed stream followed by a closing computation. *)
Lemma shape_after_stream {A B} (m : Gen A) (f : A -> Gen B) :
  Forall (fun o => stream_obs o = true) (fst m) ->
  (forall a, snd m = Ok a -> closing W (caught (f a))) ->
  run_shape W (caught (bind m f)).
Proof.
  unfold caught, bind. intros Hm Hf.
  destruct (snd m) as [a|e] eqn:Hs; simpl.
  - specialize (Hf a eq_refl). destruct (snd (f a)).
    + apply shape_stream; assumption.
    + rewrite <- app_assoc. apply shape_stream; assumption.
  - apply shape_stream; [assumption | constructor].
Qed.

(** Every run follows the grammar. *)
Lemma talk_to_robot_internal_shape (index : Index) (query mode : str)
    (history : list Message) (k : Z) (log : str -> result unit) (session_id : str) :
  run_shape W
    (talk_to_robot_internal ENCODER Index W index query mode history k log session_id).
Proof.
  change (talk_to_robot_internal ENCODER Index W index query mode history k log session_id)
    with (caught (talk_to_robot_body ENCODER Index W index query mode history k log session_id)).
  unfold talk_to_robot_body.
  apply shape_after_opening; [reflexivity | intros _ _].
  apply shape_after_opening; [reflexivity | intros top_k_blocks _].
  apply shape_after_opening; [reflexivity | intros _ _].
  apply shape_after_opening; [reflexivity | intros _ _].
  apply shape_after_opening; [reflexivity | intros prompt _].
  cbv zeta.
  apply shape_after_opening; [reflexivity | intros mod_res _].
  apply shape_after_opening.
  { destruct (existsb _ _); [|reflexivity].
    repeat (apply opens_bind; [apply opens_call; reflexivity | intros _]).
    reflexivity. }
  intros _ _.
  apply shape_after_opening; [reflexivity | intros _ _].
  apply shape_after_opening; [reflexivity | intros current_cost _].
  apply shape_after_opening; [reflexivity | intros total_budget _].
  apply shape_after_opening; [destruct (Qle_bool _ _); reflexivity | intros _ _].
  apply shape_after_opening; [reflexivity | intros _ _].
  apply shape_after_stream; [apply stream_chunks_obs | intros response _].
  unfold caught.
  destruct (log query) eqn:Hq; [|constructor].
  rewrite bind_call_ok. cbn [fst snd].
  destruct (log response) eqn:Hr; [|constructor].
  rewrite bind_call_ok. cbn [fst snd].
  destruct (multisearch_authored W [query; response] (DEBUG_PRINT W)) eqn:Hf.
  - rewrite bind_call_ok. cbn. constructor. exact Hf.
  - rewrite bind_call_raise. cbn. constructor. exact Hf.
Qed.

Lemma run_shape_inv (t : list Obs) :
  run_shape W t ->
  exists pre mid post,
    t = pre ++ mid ++ post
    /\ forallb opening pre = true
    /\ Forall (fun o => stream_obs o = true) mid
    /\ closing W post.
Proof.
  induction 1 as [o t Ho _ (pre & mid & post & -> & Hpre & Hmid & Hpost) | mid post Hmid Hpost].
  - exists (o :: pre), mid, post. simpl. rewrite Ho, Hpre. auto.
  - exists [], mid, post. auto.
Qed.

Lemma events_opening (pre : list Obs) :
  forallb opening pre = true -> Forall (fun e => is_loading e = true) (events pre).
Proof.
  induction pre as [|o pre IH]; simpl; intros H; [constructor|].
  apply andb_prop in H as [Ho Hpre].
  destruct o as [[| | |]|c]; simpl in *; try discriminate; auto.
Qed.

Lemma events_stream (mid : list Obs) :
  Forall (fun o => stream_obs o = true) mid ->
  Forall (fun e => is_streaming e = true) (events mid).
Proof.
  induction 1 as [|o mid Ho _ IH]; simpl; [constructor|].
  destruct o as [[| | |]|c]; simpl in *; try discriminate; auto.
Qed.

Lemma events_closing (post : list Obs) :
  closing W post -> exists t, events post = [t] /\ is_terminal t = true.
Proof. destruct 1; simpl; eexists; split; reflexivity. Qed.

Lemma run_events_ordered (index : Index) (query mode : str)
    (history : list Message) (k : Z) (log : str -> result unit) (session_id : str) :
  ordered (events
    (talk_to_robot_internal ENCODER Index W index query mode history k log session_id)).
Proof.
  destruct (run_shape_inv _
    (talk_to_robot_internal_shape index query mode history k log session_id))
    as (pre & mid & post & -> & Hpre & Hmid & Hpost).
  destruct (events_closing post Hpost) as (t & Ht & Hterm).
  exists (events pre), (events mid), t.
  rewrite !events_app, Ht.
  auto using events_opening, events_stream.
Qed.


(** In an ordered sequence the terminal event is the last one, and the
    only one. *)
Lemma ordered_terminal_last (evs : list Event) (e : Event) :
  ordered evs -> In e evs -> is_terminal e = true ->
  exists before, evs = before ++ [e]
    /\ Forall (fun x => is_terminal x = false) before.
Proof.
  intros (ls & ss & t & -> & Hls & Hss & Ht) Hin He.
  assert (Hbefore : Forall (fun x => is_terminal x = false) (ls ++ ss)).
  { apply Forall_app; split; eapply Forall_impl; try eassumption;
      intros [| | |]; simpl; congruence. }
  exists (ls ++ ss). rewrite <- app_assoc. split; [|exact Hbefore].
  rewrite app_assoc in Hin. apply in_app_or in Hin as [Hin|[->|[]]]; [|reflexivity].
  rewrite Forall_forall in Hbefore. apply Hbefore in Hin. congruence.
Qed.


(** *** The budget gate *)

Lemma in_fst_bind {A B} (m : Gen A) (f : A -> Gen B) (x : Obs) :
  In x (fst (bind m f)) ->
  In x (fst m) \/ exists a, snd m = Ok a /\ In x (fst (f a)).
Proof.
  unfold bind. destruct (snd m) as [a|e]; simpl; [|auto].
  intros H. apply in_app_or in H as [H|H]; [auto | right; eauto].
Qed.

Lemma in_caught_call {A} (m : Gen A) (c : Call) :
  In (Calls c) (caught m) -> In (Calls c) (fst m).
Proof.
  unfold caught. destruct (snd m); [auto|].
  intros H. apply in_app_or in H as [H|[H|[]]]; [exact H | discriminate H].
Qed.

Ltac not_here H :=
  simpl in H; repeat (destruct H as [H|H]; try discriminate H); try contradiction.

Ltac next_stage H a Hs :=
  apply in_fst_bind in H as [H|(a & Hs & H)]; [not_here H|].

(** The gate as the code has it: the completion is requested only in a
    session whose current cost is strictly above its total budget. *)
Lemma completion_requested_only_over_budget (index : Index) (query mode : str)
    (history : list Message) (k : Z) (log : str -> result unit) (session_id : str)
    (model : str) (messages : list Message) (max_tokens : Z) :
  In (Calls (Completion model messages max_tokens))
     (talk_to_robot_internal ENCODER Index W index query mode history k log session_id) ->
  exists cost budget,
    get_current_cost W session_id = Ok cost
    /\ get_total_budget W session_id = Ok budget
    /\ (budget < cost)%Q.
Proof.
  intros H.
  change (talk_to_robot_internal ENCODER Index W index query mode history k log session_id)
    with (caught (talk_to_robot_body ENCODER Index W index query mode history k log session_id))
    in H.
  apply in_caught_call in H. unfold talk_to_robot_body in H.
  next_stage H u1 Hs1. next_stage H blocks Hs2. next_stage H u3 Hs3.
  next_stage H u4 Hs4. next_stage H prompt Hs5. cbv zeta in H.
  next_stage H mod_res Hs6.
  apply in_fst_bind in H as [H|(u7 & Hs7 & H)].
  { destruct (existsb _ _); [|not_here H].
    repeat (apply in_fst_bind in H as [H|(? & _ & H)]; [not_here H|]).
    not_here H. }
  next_stage H u8 Hs8. next_stage H cost Hcost. next_stage H budget Hbudget.
  apply in_fst_bind in H as [H|(u9 & Hgate & _)].
  { destruct (Qle_bool _ _); not_here H. }
  exists cost, budget. simpl in Hcost, Hbudget. repeat split; try assumption.
  destruct (Qle_bool cost budget) eqn:Hle; [discriminate Hgate|].
  apply Qnot_le_lt. intros Hq. apply Qle_bool_iff in Hq. congruence.
Qed.

(** And it is requested in every such session that gets as far as the
    gate, whatever the ledger does afterwards. *)
Lemma over_budget_session_requests_completion (index : Index) (query mode : str)
    (history : list Message) (k : Z) (log : str -> result unit) (session_id : str)
    (blocks : list Block) (prompt : list Message) (mod_res : ModerationResult)
    (cost budget : Q) :
  get_top_k_blocks W index query k = Ok blocks ->
  construct_prompt ENCODER query mode history blocks = Ok prompt ->
  moderation_create W [query; join (NL ++ NL) (map content prompt)] = Ok mod_res ->
  existsb (fun x => x) (flagged mod_res) = false ->
  get_current_cost W session_id = Ok cost ->
  get_total_budget W session_id = Ok budget ->
  (budget < cost)%Q ->
  In (Calls (Completion COMPLETIONS_MODEL prompt
               (NUM_TOKENS - prompt_tokens ENCODER prompt - 50)))
     (talk_to_robot_internal ENCODER Index W index query mode history k log session_id).
Proof.
  intros Hblocks Hprompt Hmod Hflag Hcost Hbudget Hover.
  assert (Hgate : Qle_bool cost budget = false).
  { destruct (Qle_bool cost budget) eqn:Hle; [|reflexivity].
    apply Qle_bool_iff in Hle. apply Qlt_not_le in Hover. contradiction. }
  change (talk_to_robot_internal ENCODER Index W index query mode history k log session_id)
    with (caught (talk_to_robot_body ENCODER Index W index query mode history k log session_id)).
  unfold talk_to_robot_body.
  rewrite (caught_bind_ok _ _ tt) by reflexivity.
  rewrite (caught_bind_ok _ _ blocks) by exact Hblocks.
  rewrite (caught_bind_ok _ _ tt) by reflexivity.
  rewrite (caught_bind_ok _ _ tt) by reflexivity.
  rewrite (caught_bind_ok _ _ prompt) by exact Hprompt.
  cbv zeta.
  rewrite (caught_bind_ok _ _ mod_res) by exact Hmod.
  rewrite Hflag.
  rewrite (caught_bind_ok _ _ tt) by reflexivity.
  rewrite (caught_bind_ok _ _ tt) by reflexivity.
  rewrite (caught_bind_ok _ _ cost) by exact Hcost.
  rewrite (caught_bind_ok _ _ budget) by exact Hbudget.
  rewrite Hgate.
  rewrite (caught_bind_ok _ _ tt) by reflexivity.
  rewrite (caught_bind_ok _ _ tt) by reflexivity.
  do 11 (apply in_or_app; right).
  apply in_or_app; left. left. reflexivity.
Qed.

End RunFacts.

(** ** The single-shot adapter *)

Lemma simple_loop_app (a b : list Event) (res : SimpleResult) :
  simple_loop (a ++ b) res
  = match simple_loop a res with
    | Ok res' => simple_loop b res'
    | Raise e => Raise e
    end.
Proof.
  revert res; induction a as [|x a IH]; intros res; simpl; [reflexivity|].
  destruct (simple_step res x); [apply IH | reflexivity].
Qed.

(** C10: when the run the adapter consumes contains an error event, the
    response the adapter returns is that event's message: whatever was
    accumulated from streaming events before it is replaced. *)
Theorem simple_response_is_error_message (ENCODER : Tokenizer) (Index : Type)
    (W : World Index) (index : Index) (query : str) (log : str -> result unit)
    (res : SimpleResult) (msg : str) :
  talk_to_robot_simple ENCODER W index query log = Ok res ->
  In (Error msg)
     (events (talk_to_robot_internal ENCODER Index W index query (lit "default") []
                STANDARD_K log (uuid4 W))) ->
  response res = msg.
Proof.
  unfold talk_to_robot_simple. cbv zeta.
  destruct (create_budget W (inject_Z 10) (uuid4 W)); [|discriminate].
  intros Hres Hin.
  destruct (ordered_terminal_last _ (Error msg)
              (run_events_ordered ENCODER Index W index query (lit "default") []
                 STANDARD_K log (uuid4 W)) Hin eq_refl)
    as (before & Heq & _).
  rewrite Heq, simple_loop_app in Hres.
  destruct (simple_loop before _) as [res'|e]; [|discriminate].
  simpl in Hres. injection Hres as <-. reflexivity.
Qed.

(** A run that streams two fragments and then fails: the adapter returns
    the failure's message alone. *)
Lemma simple_response_is_error_message_witness :
  exists res,
    talk_to_robot_simple codepoint_tokenizer
      (sample_world (12 # 1) (10 # 1) (Raise (Exception (lit "followup search failed"))))
      tt (lit "What is corrigibility?") quiet_log = Ok res
    /\ response res = lit "followup search failed".
Proof.
  destruct (talk_to_robot_simple codepoint_tokenizer
      (sample_world (12 # 1) (10 # 1) (Raise (Exception (lit "followup search failed"))))
      tt (lit "What is corrigibility?") quiet_log) as [res|e] eqn:E.
  - exists res. split; [reflexivity|].
    apply (simple_response_is_error_message codepoint_tokenizer unit
             (sample_world (12 # 1) (10 # 1)
                (Raise (Exception (lit "followup search failed"))))
             tt (lit "What is corrigibility?") quiet_log res
             (lit "followup search failed") E).
    vm_compute. do 6 right. left. reflexivity.
  - vm_compute in E. discriminate E.
Defined.

(** ** Runs of the sample world *)

(** C1, on the code: a session whose current cost (12) is above its total
    budget (10) passes the gate; the completion is requested, its fragments
    are streamed and the run ends with the done event. *)
Theorem overspent_session_still_generates :
  let run := run_sample (12 # 1) (10 # 1) (Ok []) (lit "default") [] in
  (10 # 1 <= 12 # 1)%Q
  /\ existsb is_completion_call (calls run) = true
  /\ filter is_streaming (events run)
     = [Streaming (lit "Hi"); Streaming (lit " there")]
  /\ last (events run) (Loading Semantic None) = Done [].
Proof. cbv zeta. split; [discriminate|]. vm_compute. auto. Qed.

(** The other side of the same comparison: a session that has spent
    nothing is refused before any completion is requested. *)
Lemma fresh_session_is_refused :
  let run := run_sample (0 # 1) (10 # 1) (Ok []) (lit "default") [] in
  existsb is_completion_call (calls run) = false
  /\ filter is_streaming (events run) = []
  /\ last (events run) (Loading Semantic None)
     = Error (lit "Exceeded the maximum budget for this session").
Proof. vm_compute. auto. Qed.

(** A session exactly at its budget is refused as well. *)
Lemma session_at_budget_is_refused :
  let run := run_sample (10 # 1) (10 # 1) (Ok []) (lit "default") [] in
  existsb is_completion_call (calls run) = false
  /\ last (events run) (Loading Semantic None)
     = Error (lit "Exceeded the maximum budget for this session").
Proof. vm_compute. auto. Qed.



(** ** Mode validation *)

Lemma chr_ok (n : Z) : 0 <= n < 1114112 -> chr n = Ok [Z.to_N n].
Proof.
  intros H. unfold chr.
  destruct (Z.leb_spec 0 n); [|lia]. destruct (Z.ltb_spec n 1114112); [|lia].
  reflexivity.
Qed.

Lemma question_prompt_invalid (query mode : str) :
  valid_mode mode = false ->
  question_prompt query mode = Raise (ValueError (lit "Invalid mode: " ++ mode)).
Proof.
  unfold valid_mode, question_prompt. intros H.
  apply orb_false_elim in H as [H Hrookie]. apply orb_false_elim in H as [Hdefault Hconcise].
  rewrite Hconcise, Hrookie, Hdefault. reflexivity.
Qed.

Section ModeFacts.

Variable ENCODER : Tokenizer.

(** The letters do not run out before position 1114015. *)
Lemma add_blocks_ok (context : list Block) :
  forall i source_prompt token_count,
    0 <= i -> i + len context <= 1114015 ->
    exists s, add_blocks ENCODER i context source_prompt token_count = Ok s.
Proof.
  induction context as [|block rest IH]; intros i sp tc Hi Hlen; simpl.
  - eauto.
  - unfold len in Hlen; simpl length in Hlen.
    unfold block_str. rewrite chr_ok by (unfold ord_a; lia).
    destruct (_ >? _); [eauto|]. apply IH; unfold len; lia.
Qed.

Lemma system_message_ok (history : list Message) (context : list Block) :
  len context <= 1114015 ->
  exists system, system_message ENCODER history context = Ok system.
Proof.
  intros Hlen. unfold system_message.
  destruct (add_blocks_ok context 0 SOURCE_INTRO (len (encode ENCODER SOURCE_INTRO)))
    as (s & ->); [lia | lia | eauto].
Qed.

(** Prompt assembly refuses every mode but the three. *)
Lemma construct_prompt_invalid_mode (query mode : str) (history : list Message)
    (context : list Block) :
  valid_mode mode = false ->
  len context <= 1114015 ->
  construct_prompt ENCODER query mode history context
  = Raise (ValueError (lit "Invalid mode: " ++ mode)).
Proof.
  intros Hmode Hlen. unfold construct_prompt.
  destruct (system_message_ok history context Hlen) as (system & ->).
  rewrite question_prompt_invalid by assumption. reflexivity.
Qed.

(** With one of the three modes, prompt assembly returns a prompt. *)
Lemma construct_prompt_valid_mode (query mode : str) (history : list Message)
    (context : list Block) :
  valid_mode mode = true ->
  len context <= 1114015 ->
  exists prompt, construct_prompt ENCODER query mode history context = Ok prompt.
Proof.
  intros Hmode Hlen. unfold construct_prompt.
  destruct (system_message_ok history context Hlen) as (system & ->).
  unfold question_prompt, valid_mode in *.
  destruct (str_eqb mode (lit "concise")); [eauto|].
  destruct (str_eqb mode (lit "rookie")); [eauto|].
  destruct (str_eqb mode (lit "default")); [simpl; eauto | discriminate].
Qed.

End ModeFacts.


(** ** The context loop *)

Section ContextFacts.

Variable ENCODER : Tokenizer.

Lemma add_blocks_inv (context : list Block) :
  forall i source_prompt token_count,
    0 <= i -> i + len context <= 1114015 ->
    exists whole strs,
      block_strs i whole = Ok strs
      /\ all_fit ENCODER token_count strs
      /\ ((context = whole
           /\ add_blocks ENCODER i context source_prompt token_count
              = Ok (source_prompt ++ List.concat strs))
          \/ (exists block later s,
                context = whole ++ block :: later
                /\ block_str (i + len whole) block = Ok s
                /\ CONTEXT_LIMIT
                   < token_count + tokens_of ENCODER strs + token_count_of ENCODER s
                /\ add_blocks ENCODER i context source_prompt token_count
                   = Ok (source_prompt ++ List.concat strs
                         ++ cap ENCODER s
                              (CONTEXT_LIMIT
                               - (token_count + tokens_of ENCODER strs))))).
Proof.
  induction context as [|block rest IH]; intros i sp tc Hi Hlen.
  - exists [], []. simpl. rewrite app_nil_r. auto.
  - assert (Hrest : i + 1 + len rest <= 1114015)
      by (unfold len in *; simpl length in Hlen; lia).
    assert (Hchr : exists s, block_str i block = Ok s).
    { unfold block_str. rewrite chr_ok; [eauto|].
      unfold ord_a, len in *; simpl length in Hlen; lia. }
    destruct Hchr as (s & Hs).
    cbn [add_blocks]. rewrite Hs. cbv zeta.
    change (len (encode ENCODER s)) with (token_count_of ENCODER s).
    destruct (Z.gtb_spec (tc + token_count_of ENCODER s) CONTEXT_LIMIT) as [Hover|Hfits].
    + exists [], []. simpl. repeat split.
      right. exists block, rest, s.
      unfold len, tokens_of; simpl. rewrite !Z.add_0_r.
      repeat split; [exact Hs | lia].
    + destruct (IH (i + 1) (sp ++ s) (tc + token_count_of ENCODER s)) as
        (whole & strs & Hstrs & Hfit & Hcases); [lia | exact Hrest |].
      exists (block :: whole), (s :: strs). cbn [block_strs all_fit].
      rewrite Hs, Hstrs. repeat split; [exact Hfits | exact Hfit |].
      destruct Hcases as [(-> & Hres) | (b & later & s' & -> & Hs' & Hover & Hres)].
      * left. split; [reflexivity|]. rewrite Hres. simpl. rewrite <- app_assoc. reflexivity.
      * right. exists b, later, s'.
        replace (i + len (block :: whole)) with (i + 1 + len whole)
          by (unfold len; simpl length; lia).
        replace (tc + tokens_of ENCODER (s :: strs))
          with (tc + token_count_of ENCODER s + tokens_of ENCODER strs)
          by (unfold tokens_of; simpl; lia).
        repeat split; [exact Hs' | exact Hover |].
        rewrite Hres. simpl. rewrite <- !app_assoc. reflexivity.
Qed.

(** C7: the blocks are rendered in input order and added whole while the
    running count, which starts at the cost of the instruction text, stays
    within [int(NUM_TOKENS * CONTEXT_FRACTION)]; the first block that would
    take the count over the limit is capped to what remains of it and ends
    the loop: nothing of the later blocks is appended. *)
Theorem context_blocks_whole_then_one_capped (context : list Block) :
  len context <= 1114015 ->
  let start := token_count_of ENCODER SOURCE_INTRO in
  let result := add_blocks ENCODER 0 context SOURCE_INTRO start in
  exists whole strs,
    block_strs 0 whole = Ok strs
    /\ all_fit ENCODER start strs
    /\ ((context = whole /\ result = Ok (SOURCE_INTRO ++ List.concat strs))
        \/ (exists block later s,
              context = whole ++ block :: later
              /\ block_str (len whole) block = Ok s
              /\ CONTEXT_LIMIT
                 < start + tokens_of ENCODER strs + token_count_of ENCODER s
              /\ result
                 = Ok (SOURCE_INTRO ++ List.concat strs
                       ++ cap ENCODER s
                            (CONTEXT_LIMIT - (start + tokens_of ENCODER strs))))).
Proof.
  intros Hlen start result.
  destruct (add_blocks_inv context 0 SOURCE_INTRO start) as
    (whole & strs & Hstrs & Hfit & Hcases); [lia | lia |].
  exists whole, strs. repeat split; try assumption.
Qed.

(** The system message is made of the loop's result. *)
Lemma system_message_from_loop (history : list Message) (context : list Block)
    (source_prompt : str) :
  add_blocks ENCODER 0 context SOURCE_INTRO (token_count_of ENCODER SOURCE_INTRO)
    = Ok source_prompt ->
  system_message ENCODER history context
  = Ok {| role := lit "system";
          content := strip (if len history >? 0
                            then strip source_prompt ++ HISTORY_CAVEAT
                            else strip source_prompt) |}.
Proof.
  unfold system_message, token_count_of. intros ->. reflexivity.
Qed.

End ContextFacts.

(** ** Assembled prompts of the samples *)

(** A single user turn is kept whole, whatever its length: the loop appends
    before it compares. *)
Lemma single_user_turn_kept_whole (ENCODER : Tokenizer) (query text : str) :
  exists system final,
    construct_prompt ENCODER query (lit "default")
      [{| role := lit "user"; content := text |}] []
    = Ok [system; {| role := lit "user"; content := lit "Q: " ++ text |}; final].
Proof.
  unfold construct_prompt, system_message. cbn [add_blocks].
  unfold last_entries_reversed. cbn [rev app firstn collect_history].
  unfold fold_entry. cbn [role content]. rewrite str_eqb_refl. cbv zeta. cbn [content].
  destruct (_ >? HISTORY_LIMIT); cbn [collect_history app rev];
    do 2 eexists; reflexivity.
Qed.

(** C5 fails: one user turn of 1100 words is kept whole, and costs 2203
    tokens, more than NUM_TOKENS * HISTORY_FRACTION = 1023.75. *)
Lemma history_cost_over_fraction :
  exists prompt,
    construct_prompt codepoint_tokenizer (lit "And then?") (lit "default")
      [long_question 1100] [] = Ok prompt
    /\ messages_cost codepoint_tokenizer (history_segment prompt) = 2203
    /\ ~ (inject_Z (messages_cost codepoint_tokenizer (history_segment prompt))
          <= inject_Z NUM_TOKENS * HISTORY_FRACTION)%Q.
Proof.
  destruct (single_user_turn_kept_whole codepoint_tokenizer (lit "And then?")
              (words 1100)) as (system & final & H).
  eexists. split; [exact H|].
  assert (Hcost : messages_cost codepoint_tokenizer
            (history_segment
               [system;
                {| role := lit "user"; content := lit "Q: " ++ words 1100 |};
                final]) = 2203) by (vm_compute; reflexivity).
  split; [exact Hcost|]. rewrite Hcost. vm_compute. intros Hle. apply Hle. reflexivity.
Qed.

Lemma history_cost_bounded_before_last_collected_witness :
  exists prompt,
    construct_prompt codepoint_tokenizer (lit "And then?") (lit "concise")
      sample_history [sample_block] = Ok prompt
    /\ messages_cost codepoint_tokenizer (tl (history_segment prompt))
       <= HISTORY_LIMIT.
Proof.
  destruct (construct_prompt codepoint_tokenizer (lit "And then?") (lit "concise")
              sample_history [sample_block]) as [prompt|e] eqn:E.
  - exists prompt. split; [reflexivity|].
    apply (history_cost_bounded_before_last_collected codepoint_tokenizer
             (lit "And then?") (lit "concise") sample_history [sample_block] prompt E).
  - vm_compute in E. discriminate E.
Defined.

Lemma history_kept_is_recent_suffix_witness :
  exists prompt,
    construct_prompt codepoint_tokenizer (lit "And then?") (lit "concise")
      sample_history [sample_block] = Ok prompt
    /\ exists system kept final,
         prompt = [system] ++ kept ++ [final]
         /\ role system = lit "system"
         /\ role final = lit "user"
         /\ (length kept <= 10)%nat
         /\ Forall2 (folded codepoint_tokenizer)
              (skipn (length sample_history - length kept) sample_history) kept.
Proof.
  destruct (construct_prompt codepoint_tokenizer (lit "And then?") (lit "concise")
              sample_history [sample_block]) as [prompt|e] eqn:E.
  - exists prompt. split; [reflexivity|].
    apply (history_kept_is_recent_suffix codepoint_tokenizer
             (lit "And then?") (lit "concise") sample_history [sample_block] prompt E).
  - vm_compute in E. discriminate E.
Defined.

(** Of the twelve entries of the sample history, nine are kept: the code
    stops one short of the ten its comment announces. *)
Lemma sample_history_keeps_nine :
  exists prompt,
    construct_prompt codepoint_tokenizer (lit "And then?") (lit "concise")
      sample_history [sample_block] = Ok prompt
    /\ length (history_segment prompt) = 9%nat
    /\ map content (firstn 2 (history_segment prompt))
       = [lit "See [x], question 2"; lit "Q: Question 3"].
Proof. eexists. split; [vm_compute; reflexivity|]. vm_compute. auto. Qed.

Lemma context_blocks_whole_then_one_capped_witness :
  let start := token_count_of codepoint_tokenizer SOURCE_INTRO in
  let result := add_blocks codepoint_tokenizer 0 sample_context SOURCE_INTRO start in
  exists whole strs,
    block_strs 0 whole = Ok strs
    /\ all_fit codepoint_tokenizer start strs
    /\ ((sample_context = whole /\ result = Ok (SOURCE_INTRO ++ List.concat strs))
        \/ (exists block later s,
              sample_context = whole ++ block :: later
              /\ block_str (len whole) block = Ok s
              /\ CONTEXT_LIMIT
                 < start + tokens_of codepoint_tokenizer strs
                   + token_count_of codepoint_tokenizer s
              /\ result
                 = Ok (SOURCE_INTRO ++ List.concat strs
                       ++ cap codepoint_tokenizer s
                            (CONTEXT_LIMIT
                             - (start + tokens_of codepoint_tokenizer strs))))).
Proof.
  apply (context_blocks_whole_then_one_capped codepoint_tokenizer sample_context).
  vm_compute. discriminate.
Defined.

(** In the sample context the instruction text costs 318 tokens and the
    first block 92; the second block is cut to the 1637 that remain, and the
    third leaves no trace. *)
Lemma sample_context_second_block_capped :
  exists s0 s1,
    block_str 0 sample_block = Ok s0
    /\ block_str 1 long_block = Ok s1
    /\ add_blocks codepoint_tokenizer 0 sample_context SOURCE_INTRO
         (token_count_of codepoint_tokenizer SOURCE_INTRO)
       = Ok (SOURCE_INTRO ++ s0 ++ firstn 1637 s1 ++ lit " ...").
Proof.
  do 2 eexists. split; [vm_compute; reflexivity|].
  split; [vm_compute; reflexivity|]. vm_compute. reflexivity.
Qed.

(** * Further properties *)

(** ** The citation scrub *)

Lemma contains_citation_after (p s : str) :
  contains_citation s -> contains_citation (p ++ s).
Proof.
  intros (pre & ds & post & -> & Hne & Hd).
  exists (p ++ pre), ds, post. rewrite <- app_assoc. auto.
Qed.

Lemma contains_citation_bracketed (ds r : str) :
  ds <> [] -> forallb is_digit ds = true ->
  contains_citation (LBRACKET :: ds ++ RBRACKET :: r).
Proof. intros Hne Hd. exists [], ds, r. auto. Qed.

Lemma forallb_rev' {A} (f : A -> bool) (l : list A) :
  forallb f (rev l) = forallb f l.
Proof.
  induction l as [|a l IH]; simpl; [reflexivity|].
  rewrite forallb_app, IH. simpl. rewrite andb_true_r. apply andb_comm.
Qed.

Lemma censor_from_no_citation (r : str) :
  forall pending,
    (forall ds, pending = Some ds -> forallb is_digit ds = true) ->
    ~ contains_citation (unread pending r) ->
    censor_from pending r = unread pending r.
Proof.
  induction r as [|c r IH]; intros [ds|] Hds Hno; cbn [censor_from unread].
  - rewrite app_nil_r. reflexivity.
  - reflexivity.
  - specialize (Hds ds eq_refl). cbn [unread] in Hno.
    destruct (is_digit c) eqn:Hc.
    + rewrite (IH (Some (c :: ds))).
      * cbn [unread rev]. rewrite <- app_assoc. reflexivity.
      * intros ds' [= <-]. simpl. rewrite Hc, Hds. reflexivity.
      * cbn [unread rev]. rewrite <- app_assoc. exact Hno.
    + destruct (N.eqb_spec c RBRACKET) as [->|Hrb]; cbn [andb].
      * destruct ds as [|d ds']; cbn [length Nat.eqb negb].
        -- unfold RBRACKET, LBRACKET at 1. cbn [N.eqb Pos.eqb].
           rewrite (IH None); [reflexivity | discriminate |].
           intros H. apply Hno. apply (contains_citation_after [LBRACKET; RBRACKET]) in H.
           exact H.
        -- exfalso. apply Hno. apply contains_citation_bracketed.
           ++ simpl. intros H. apply app_eq_nil in H as [_ H]. discriminate H.
           ++ rewrite forallb_rev'. exact Hds.
      * destruct (N.eqb_spec c LBRACKET) as [->|Hlb].
        -- rewrite (IH (Some [])).
           ++ reflexivity.
           ++ intros ds' [= <-]. reflexivity.
           ++ cbn [unread rev app]. intros H. apply Hno.
              apply (contains_citation_after (LBRACKET :: rev ds)) in H. exact H.
        -- rewrite (IH None); [reflexivity | discriminate |].
           cbn [unread]. intros H. apply Hno.
           apply (contains_citation_after (LBRACKET :: rev ds ++ [c])) in H.
           simpl in H. rewrite <- app_assoc in H. exact H.
  - cbn [unread] in Hno.
    destruct (N.eqb_spec c LBRACKET) as [->|Hlb].
    + rewrite (IH (Some [])).
      * reflexivity.
      * intros ds' [= <-]. reflexivity.
      * exact Hno.
    + rewrite (IH None); [reflexivity | discriminate |].
      cbn [unread]. intros H. apply Hno.
      apply (contains_citation_after [c]) in H. exact H.
Qed.

(** X2: a text without numbered citation goes through the scrub
    unchanged. *)
Theorem censor_sources_without_citation (s : str) :
  ~ contains_citation s -> censor_sources s = s.
Proof.
  intros H. unfold censor_sources.
  apply (censor_from_no_citation s None); [discriminate | exact H].
Qed.

Lemma digit_not_bracket (c : N) :
  is_digit c = true -> N.eqb c LBRACKET = false /\ N.eqb c RBRACKET = false.
Proof.
  unfold is_digit, LBRACKET, RBRACKET. intros H.
  apply andb_prop in H as [H1 H2]. apply N.leb_le in H1, H2.
  split; apply N.eqb_neq; lia.
Qed.

Lemma scan_digits_then (ds t : str) :
  forallb is_digit ds = true -> ds <> [] ->
  forall q, q <> Outside -> scan q (ds ++ t) = scan Digits t.
Proof.
  induction ds as [|d ds IH]; intros Hd Hne q Hq; [congruence|].
  simpl in Hd. apply andb_prop in Hd as [Hd Hds].
  destruct (digit_not_bracket d Hd) as [Hlb _].
  cbn [app scan]. rewrite Hlb, Hd.
  destruct ds as [|d' ds'].
  - destruct q; [congruence | reflexivity | reflexivity].
  - rewrite <- (IH Hds ltac:(discriminate) Digits ltac:(discriminate)).
    destruct q; [congruence | reflexivity | reflexivity].
Qed.

Lemma scan_citation (s : str) :
  contains_citation s -> forall q, scan q s = true.
Proof.
  intros (pre & ds & post & -> & Hne & Hd).
  induction pre as [|c pre IH]; intros q.
  - cbn [app scan]. unfold LBRACKET at 1. rewrite N.eqb_refl.
    rewrite (scan_digits_then ds _ Hd Hne Opened) by discriminate.
    cbn [scan]. unfold RBRACKET, LBRACKET, is_digit. reflexivity.
  - cbn [app scan]. destruct (N.eqb c LBRACKET); [apply IH|].
    destruct q; [apply IH | destruct (is_digit c); apply IH |].
    destruct (is_digit c); [apply IH|]. destruct (N.eqb c RBRACKET); [reflexivity | apply IH].
Qed.

Lemma scan_pending (ds t : str) :
  forallb is_digit ds = true ->
  scan Outside (LBRACKET :: rev ds ++ t)
  = scan (match ds with [] => Opened | _ => Digits end) t.
Proof.
  intros Hd. cbn [scan]. unfold LBRACKET at 1. rewrite N.eqb_refl.
  destruct ds as [|d ds']; [reflexivity|].
  apply scan_digits_then; [rewrite forallb_rev'; exact Hd | | discriminate].
  simpl. intros H. apply app_eq_nil in H as [_ H]. discriminate H.
Qed.

Lemma censor_from_pending_head (r : str) :
  forall ds, exists t, censor_from (Some ds) r = LBRACKET :: t.
Proof.
  induction r as [|c r IH]; intros ds; cbn [censor_from]; [eauto|].
  destruct (is_digit c); [apply IH|].
  destruct (_ && _); [simpl; eauto|].
  destruct (N.eqb c LBRACKET); simpl; eauto.
Qed.

Lemma scan_censor_from (r : str) :
  forall pending,
    (forall ds, pending = Some ds -> forallb is_digit ds = true) ->
    scan Outside (censor_from pending r) = false.
Proof.
  induction r as [|c r IH]; intros [ds|] Hds; cbn [censor_from].
  - specialize (Hds ds eq_refl).
    rewrite <- (app_nil_r (rev ds)), scan_pending by exact Hds.
    destruct ds; reflexivity.
  - reflexivity.
  - specialize (Hds ds eq_refl).
    destruct (is_digit c) eqn:Hc.
    { apply IH. intros ds' [= <-]. simpl. rewrite Hc, Hds. reflexivity. }
    destruct (N.eqb c RBRACKET && negb (Nat.eqb (length ds) 0)) eqn:Hclose.
    { change (scan Outside (censor_from None r) = false). apply IH. discriminate. }
    destruct (N.eqb c LBRACKET) eqn:Hlb.
    + cbn [app]. rewrite scan_pending by exact Hds.
      destruct (censor_from_pending_head r []) as (t & Ht).
      assert (Hfrom : scan Outside (censor_from (Some []) r) = false)
        by (apply IH; intros ds' [= <-]; reflexivity).
      rewrite Ht in *. cbn [scan] in *. unfold LBRACKET at 1 in Hfrom.
      unfold LBRACKET at 1. rewrite N.eqb_refl in *.
      destruct ds; exact Hfrom.
    + cbn [app]. rewrite scan_pending by exact Hds.
      assert (Hrest : scan Outside (censor_from None r) = false)
        by (apply IH; discriminate).
      cbn [scan]. rewrite Hlb, Hc.
      destruct ds as [|d ds']; [exact Hrest|].
      cbn [length Nat.eqb negb] in Hclose. rewrite andb_true_r in Hclose.
      rewrite Hclose. exact Hrest.
  - destruct (N.eqb c LBRACKET) eqn:Hlb.
    + apply IH. intros ds' [= <-]. reflexivity.
    + cbn [scan]. rewrite Hlb. apply IH. discriminate.
Qed.

Lemma censor_sources_clean (s : str) : ~ contains_citation (censor_sources s).
Proof.
  intros H. apply scan_citation with (q := Outside) in H.
  unfold censor_sources in H. rewrite scan_censor_from in H; discriminate.
Qed.

(** X3: scrubbing twice is scrubbing once. *)
Theorem censor_sources_idempotent (s : str) :
  censor_sources (censor_sources s) = censor_sources s.
Proof.
  apply (censor_from_no_citation (censor_sources s) None);
    [discriminate | apply censor_sources_clean].
Qed.

(** ** The cases of a run *)

(** Two answers of one collaborator to one question are the same. *)
Ltac same_answers :=
  repeat match goal with
  | H1 : ?x = Ok _, H2 : ?x = Ok _ |- _ =>
      rewrite H1 in H2; injection H2 as <-
  | H1 : ?x = Ok _, H2 : ?x = Raise _ |- _ => rewrite H1 in H2; discriminate H2
  | H1 : ?x = Raise _, H2 : ?x = Raise _ |- _ =>
      rewrite H1 in H2; injection H2 as <-
  | H1 : ?x = true, H2 : ?x = false |- _ => rewrite H1 in H2; discriminate H2
  end.

Lemma bind_yield_pair {B} (e : Event) (f : unit -> Gen B) :
  bind (yield e) f = ([Yield e] ++ fst (f tt), snd (f tt)).
Proof. reflexivity. Qed.

Section RunCaseFacts.

Variable ENCODER : Tokenizer.
Variable Index : Type.
Variable W : World Index.

Lemma rejection_raises (query : str) (log : str -> result unit)
    (mod_res : ModerationResult) (prompt : list Message) :
  exists e, snd (rejection query log mod_res prompt) = Raise e.
Proof.
  unfold rejection. cbv zeta.
  repeat match goal with
  | |- context [call (Log ?l) (log ?l)] =>
      destruct (log l); [rewrite bind_call_ok | rewrite bind_call_raise; simpl; eauto]
  end.
  simpl. eauto.
Qed.

Lemma caught_bind_raises {A B} (m : Gen A) (f : A -> Gen B) :
  (exists e, snd m = Raise e) -> caught (bind m f) = caught m.
Proof. intros (e & H). unfold caught, bind. rewrite H. reflexivity. Qed.

(** Every run is one of the eight cases, decided by what the collaborators
    answer. *)
Lemma talk_to_robot_internal_cases (index : Index) (query mode : str)
    (history : list Message) (k : Z) (log : str -> result unit) (session_id : str) :
  run_case ENCODER Index W index query mode history k log session_id
    (talk_to_robot_internal ENCODER Index W index query mode history k log session_id).
Proof.
  change (talk_to_robot_internal ENCODER Index W index query mode history k log session_id)
    with (caught (talk_to_robot_body ENCODER Index W index query mode history k log session_id)).
  unfold talk_to_robot_body.
  rewrite (caught_bind_ok _ _ tt) by reflexivity.
  destruct (get_top_k_blocks W index query k) as [blocks|e] eqn:Hblocks.
  2:{ rewrite (caught_bind_raise _ _ e) by reflexivity.
      exact (retrieval_failed ENCODER Index W index query mode history k log session_id e Hblocks). }
  rewrite (caught_bind_ok _ _ blocks) by reflexivity.
  rewrite (caught_bind_ok _ _ tt) by reflexivity.
  rewrite (caught_bind_ok _ _ tt) by reflexivity.
  destruct (construct_prompt ENCODER query mode history blocks) as [prompt|e] eqn:Hprompt.
  2:{ rewrite (caught_bind_raise _ _ e) by reflexivity.
      exact (prompt_failed ENCODER Index W index query mode history k log session_id
               blocks e Hblocks Hprompt). }
  rewrite (caught_bind_ok _ _ prompt) by reflexivity.
  cbv zeta.
  destruct (moderation_create W [query; join (NL ++ NL) (map content prompt)])
    as [mod_res|e] eqn:Hmod.
  2:{ rewrite (caught_bind_raise _ _ e) by reflexivity.
      exact (moderation_failed ENCODER Index W index query mode history k log session_id
               blocks prompt e Hblocks Hprompt Hmod). }
  rewrite (caught_bind_ok _ _ mod_res) by reflexivity.
  destruct (existsb (fun x => x) (flagged mod_res)) eqn:Hflag.
  { rewrite (caught_bind_raises (rejection query log mod_res prompt))
      by apply rejection_raises.
    exact (moderation_flagged ENCODER Index W index query mode history k log session_id
             blocks prompt mod_res Hblocks Hprompt Hmod Hflag). }
  rewrite (caught_bind_ok _ _ tt) by reflexivity.
  rewrite (caught_bind_ok _ _ tt) by reflexivity.
  destruct (get_current_cost W session_id) as [cost|e] eqn:Hcost.
  2:{ rewrite (caught_bind_raise _ _ e) by reflexivity.
      exact (cost_failed ENCODER Index W index query mode history k log session_id
               blocks prompt mod_res e Hblocks Hprompt Hmod Hflag Hcost). }
  rewrite (caught_bind_ok _ _ cost) by reflexivity.
  destruct (get_total_budget W session_id) as [budget|e] eqn:Hbudget.
  2:{ rewrite (caught_bind_raise _ _ e) by reflexivity.
      exact (budget_failed ENCODER Index W index query mode history k log session_id
               blocks prompt mod_res cost e Hblocks Hprompt Hmod Hflag Hcost Hbudget). }
  rewrite (caught_bind_ok _ _ budget) by reflexivity.
  destruct (Qle_bool cost budget) eqn:Hgate.
  { exact (gate_closed ENCODER Index W index query mode history k log session_id
             blocks prompt mod_res cost budget Hblocks Hprompt Hmod Hflag Hcost Hbudget Hgate). }
  rewrite (caught_bind_ok _ _ tt) by reflexivity.
  rewrite (caught_bind_ok _ _ tt) by reflexivity.
  exact (generated ENCODER Index W index query mode history k log session_id
           blocks prompt mod_res cost budget Hblocks Hprompt Hmod Hflag Hcost Hbudget Hgate).
Qed.

(** *** The parts of a run *)

Lemma streamed_app (a b : list Obs) : streamed (a ++ b) = streamed a ++ streamed b.
Proof. unfold streamed. apply flat_map_app. Qed.

Lemma services_app (a b : list Obs) : services (a ++ b) = services a ++ services b.
Proof. unfold services. apply flat_map_app. Qed.

(** The loop over the chunks yields streaming events and updates the cost
    of the session it was given. *)
Lemma stream_chunks_users (session_id : str) (cs : list Chunk) (fail : option exn) :
  forall n response,
    Forall (fun o => (exists c, o = Yield (Streaming c))
                     \/ (exists r, o = Calls (UpdateCost r session_id)))
      (fst (stream_chunks Index W session_id n cs fail response)).
Proof.
  induction cs as [|chunk rest IH]; intros n response; cbn [stream_chunks].
  - destruct fail; constructor.
  - destruct (update_cost W n response session_id) as [u0|e].
    + rewrite bind_call_ok. cbn [fst]. constructor; [right; eauto|].
      destruct (delta chunk) as [[c|]|]; try apply IH.
      rewrite bind_yield_pair. cbn [fst]. constructor; [left; eauto | apply IH].
    + rewrite bind_call_raise. cbn [fst]. constructor; [right; eauto | constructor].
Qed.

(** Each update carries the response as it stood before the chunk. *)
Lemma stream_chunks_updates (session_id : str) (cs : list Chunk) (fail : option exn) :
  forall n response pre r u post,
    fst (stream_chunks Index W session_id n cs fail response)
      = pre ++ Calls (UpdateCost r u) :: post ->
    r = response ++ streamed pre.
Proof.
  induction cs as [|chunk rest IH]; intros n response pre r u post; cbn [stream_chunks].
  - destruct fail; simpl; intros H; destruct pre; discriminate H.
  - destruct (update_cost W n response session_id) as [u0|e].
    + rewrite bind_call_ok. cbn [fst app].
      destruct pre as [|o pre]; simpl; intros H.
      { injection H as <- _ _. rewrite app_nil_r. reflexivity. }
      injection H as <- H. simpl.
      destruct (delta chunk) as [[c|]|]; try (eapply IH; eassumption).
      rewrite bind_yield_pair in H. cbn [fst app] in H.
      destruct pre as [|o pre]; [discriminate H|].
      injection H as <- H. simpl. rewrite app_assoc. eapply IH; eassumption.
    + rewrite bind_call_raise. cbn [fst].
      destruct pre as [|o pre]; simpl; intros H.
      * injection H as <- _ _. rewrite app_nil_r. reflexivity.
      * injection H as _ H. destruct pre; discriminate H.
Qed.

(** Its result is the response it started from and what it streamed. *)
Lemma stream_chunks_result (session_id : str) (cs : list Chunk) (fail : option exn) :
  forall n response final,
    snd (stream_chunks Index W session_id n cs fail response) = Ok final ->
    final = response
            ++ streamed (fst (stream_chunks Index W session_id n cs fail response)).
Proof.
  induction cs as [|chunk rest IH]; intros n response final; cbn [stream_chunks].
  - destruct fail; simpl; [discriminate|]. intros [= <-]. rewrite app_nil_r. reflexivity.
  - destruct (update_cost W n response session_id) as [u0|e].
    + rewrite bind_call_ok. cbn [fst snd]. rewrite streamed_app. cbn [streamed flat_map app].
      destruct (delta chunk) as [[c|]|]; try apply IH.
      rewrite bind_yield_pair. cbn [fst snd]. intros H.
      change (streamed ([Yield (Streaming c)]
                ++ fst (stream_chunks Index W session_id (S n) rest fail (response ++ c))))
        with (c ++ streamed
                (fst (stream_chunks Index W session_id (S n) rest fail (response ++ c)))).
      rewrite app_assoc. apply IH. exact H.
    + rewrite bind_call_raise. cbn [snd]. discriminate.
Qed.

(** How the body ends once the response is complete. *)
Lemma finish_cases (query : str) (log : str -> result unit) (response : str) :
  let t := caught (finish Index W query log response) in
  let followups := MultisearchAuthored [query; response] (DEBUG_PRINT W) in
  (exists e, log query = Raise e
     /\ t = [Calls (Log query); Yield (Error (str_of_exn e))])
  \/ (exists e, log response = Raise e
       /\ t = [Calls (Log query); Calls (Log response); Yield (Error (str_of_exn e))])
  \/ (exists e, multisearch_authored W [query; response] (DEBUG_PRINT W) = Raise e
       /\ t = [Calls (Log query); Calls (Log response); Calls followups;
               Yield (Error (str_of_exn e))])
  \/ (exists fs, multisearch_authored W [query; response] (DEBUG_PRINT W) = Ok fs
       /\ t = [Calls (Log query); Calls (Log response); Calls followups;
               Yield (Done fs)]).
Proof.
  cbv zeta. unfold finish.
  destruct (log query) as [[]|e] eqn:Hq.
  2:{ left. exists e. split; [reflexivity|].
      rewrite (caught_bind_raise _ _ e) by reflexivity. reflexivity. }
  rewrite (caught_bind_ok _ _ tt) by reflexivity.
  destruct (log response) as [[]|e] eqn:Hr.
  2:{ right; left. exists e. split; [reflexivity|].
      rewrite (caught_bind_raise _ _ e) by reflexivity. reflexivity. }
  rewrite (caught_bind_ok _ _ tt) by reflexivity.
  destruct (multisearch_authored W [query; response] (DEBUG_PRINT W)) as [fs|e] eqn:Hf.
  - do 3 right. exists fs. split; [reflexivity|].
    rewrite (caught_bind_ok _ _ fs) by reflexivity. reflexivity.
  - right; right; left. exists e. split; [reflexivity|].
    rewrite (caught_bind_raise _ _ e) by reflexivity. reflexivity.
Qed.

(** How the body ends when moderation flags the conversation: the lines
    are logged as far as the log accepts them, and the error is the
    rejection, or the failure of the log. *)
Lemma rejection_outcome (query : str) (log : str -> result unit)
    (mod_res : ModerationResult) (prompt : list Message) :
  exists n m,
    caught (rejection query log mod_res prompt)
    = map (fun line => Calls (Log line))
        (firstn n (rejection_lines query mod_res prompt))
      ++ [Yield (Error m)]
    /\ ((n = 6%nat /\ m = REJECTED)
        \/ (exists line e,
              In line (rejection_lines query mod_res prompt)
              /\ log line = Raise e /\ m = str_of_exn e)).
Proof.
  unfold rejection. cbv zeta.
  destruct (log dashes) as [[]|e] eqn:H1.
  2:{ exists 1%nat, (str_of_exn e). rewrite (caught_bind_raise _ _ e) by reflexivity.
      split; [reflexivity|]. right. exists dashes, e. repeat split; [unfold rejection_lines; cbn [In]; auto 10 | assumption]. }
  rewrite (caught_bind_ok _ _ tt) by reflexivity.
  destruct (log (lit "MODERATION REJECTED")) as [[]|e] eqn:H2.
  2:{ exists 2%nat, (str_of_exn e). rewrite (caught_bind_raise _ _ e) by reflexivity.
      split; [reflexivity|]. right. exists (lit "MODERATION REJECTED"), e. repeat split; [unfold rejection_lines; cbn [In]; auto 10 | assumption]. }
  rewrite (caught_bind_ok _ _ tt) by reflexivity.
  destruct (log (lit "MODERATION RESPONSE:" ++ NL ++ NL ++ results_json mod_res))
    as [[]|e] eqn:H3.
  2:{ exists 3%nat, (str_of_exn e). rewrite (caught_bind_raise _ _ e) by reflexivity.
      split; [reflexivity|]. right.
      exists (lit "MODERATION RESPONSE:" ++ NL ++ NL ++ results_json mod_res), e.
      repeat split; [unfold rejection_lines; cbn [In]; auto 10 | assumption]. }
  rewrite (caught_bind_ok _ _ tt) by reflexivity.
  destruct (log (lit "REJECTED QUERY: " ++ query)) as [[]|e] eqn:H4.
  2:{ exists 4%nat, (str_of_exn e). rewrite (caught_bind_raise _ _ e) by reflexivity.
      split; [reflexivity|]. right. exists (lit "REJECTED QUERY: " ++ query), e.
      repeat split; [unfold rejection_lines; cbn [In]; auto 10 | assumption]. }
  rewrite (caught_bind_ok _ _ tt) by reflexivity.
  destruct (log (lit "REJECTED PROMPT:" ++ NL ++ NL ++ prompt_string prompt))
    as [[]|e] eqn:H5.
  2:{ exists 5%nat, (str_of_exn e). rewrite (caught_bind_raise _ _ e) by reflexivity.
      split; [reflexivity|]. right.
      exists (lit "REJECTED PROMPT:" ++ NL ++ NL ++ prompt_string prompt), e.
      repeat split; [unfold rejection_lines; cbn [In]; auto 10 | assumption]. }
  rewrite (caught_bind_ok _ _ tt) by reflexivity.
  rewrite (caught_bind_ok _ _ tt) by reflexivity.
  exists 6%nat, REJECTED. split; [reflexivity | left; auto].
Qed.



(** X6: a completion is requested only for a prompt that moderation has
    seen and not flagged: the messages sent are the assembled prompt, the
    model is the configured one, and the token ceiling is what the prompt
    leaves of NUM_TOKENS, less 50. *)
Theorem completion_only_after_moderation (index : Index) (query mode : str)
    (history : list Message) (k : Z) (log : str -> result unit) (session_id : str)
    (model : str) (messages : list Message) (max_tokens : Z) :
  In (Calls (Completion model messages max_tokens))
     (talk_to_robot_internal ENCODER Index W index query mode history k log session_id) ->
  exists blocks mod_res,
    get_top_k_blocks W index query k = Ok blocks
    /\ construct_prompt ENCODER query mode history blocks = Ok messages
    /\ moderation_create W [query; prompt_string messages] = Ok mod_res
    /\ existsb (fun x => x) (flagged mod_res) = false
    /\ model = COMPLETIONS_MODEL
    /\ max_tokens = NUM_TOKENS - prompt_tokens ENCODER messages - 50.
Proof.
  intros Hin.
  destruct (talk_to_robot_internal_cases index query mode history k log session_id)
    as [e He|blocks e Hb Hp|blocks prompt e Hb Hp Hm|blocks prompt mod_res Hb Hp Hm Hf
       |blocks prompt mod_res e Hb Hp Hm Hf Hc|blocks prompt mod_res cost e Hb Hp Hm Hf Hc Hbu
       |blocks prompt mod_res cost budget Hb Hp Hm Hf Hc Hbu Hg
       |blocks prompt mod_res cost budget Hb Hp Hm Hf Hc Hbu Hg].
  1-3,5-7: simpl in Hin; repeat (destruct Hin as [Hin|Hin]; try discriminate Hin);
    contradiction.
  - apply in_app_or in Hin as [Hin|Hin].
    + simpl in Hin. repeat (destruct Hin as [Hin|Hin]; try discriminate Hin). contradiction.
    + destruct (rejection_outcome query log mod_res prompt) as (n & m & Heq & _).
      rewrite Heq in Hin. apply in_app_or in Hin as [Hin|[Hin|[]]]; [|discriminate Hin].
      apply in_map_iff in Hin as (line & Hline & _). discriminate Hline.
  - apply in_app_or in Hin as [Hin|Hin].
    + simpl in Hin. repeat (destruct Hin as [Hin|Hin]; try discriminate Hin);
        try contradiction.
      injection Hin as <- <- <-. exists blocks, mod_res. auto 10.
    + exfalso. unfold caught, bind in Hin.
      pose proof (stream_chunks_users session_id
                    (chunks (completion W COMPLETIONS_MODEL prompt
                               (max_tokens_completion ENCODER prompt)))
                    (failure (completion W COMPLETIONS_MODEL prompt
                                (max_tokens_completion ENCODER prompt))) 0 []) as Hobs.
      rewrite Forall_forall in Hobs.
      fold (consumed ENCODER Index W session_id prompt) in Hobs.
      destruct (snd (consumed ENCODER Index W session_id prompt)) as [response|e] eqn:Hs;
        cbn [fst snd] in Hin.
      * assert (Hin' : In (Calls (Completion model messages max_tokens))
                         (fst (consumed ENCODER Index W session_id prompt)
                          ++ caught (finish Index W query log response))).
        { unfold caught. destruct (snd (finish Index W query log response));
            [exact Hin | rewrite <- app_assoc in Hin; exact Hin]. }
        apply in_app_or in Hin' as [Hin'|Hin'].
        -- apply Hobs in Hin' as [(c & Hc')|(r & Hr)]; discriminate.
        -- destruct (finish_cases query log response)
             as [(e & _ & Heq)|[(e & _ & Heq)|[(e & _ & Heq)|(fs & _ & Heq)]]];
             cbv zeta in Heq; rewrite Heq in Hin'; simpl in Hin';
             repeat (destruct Hin' as [Hin'|Hin']; try discriminate Hin'); contradiction.
      * apply in_app_or in Hin as [Hin|[Hin|[]]]; [|discriminate Hin].
        apply Hobs in Hin as [(c & Hc')|(r & Hr)]; discriminate.
Qed.

(** *** Before and after the completion request *)

(** A run either never reaches the completion, and then holds nothing of
    the generation, or is what came before the request, the consumed
    stream, and an end. *)
Lemma run_generation_split (index : Index) (query mode : str)
    (history : list Message) (k : Z) (log : str -> result unit) (session_id : str) :
  let run :=
    talk_to_robot_internal ENCODER Index W index query mode history k log session_id in
  Forall (fun o => match o with
                   | Yield (Streaming _) | Yield (Done _) | Calls (Completion _ _ _)
                   | Calls (UpdateCost _ _) | Calls (MultisearchAuthored _ _)
                   | Calls (CreateBudget _ _) => False
                   | Calls (GetCurrentCost u) | Calls (GetTotalBudget u) => u = session_id
                   | _ => True
                   end) run
  \/ exists blocks prompt tail,
       get_top_k_blocks W index query k = Ok blocks
       /\ construct_prompt ENCODER query mode history blocks = Ok prompt
       /\ run = until_completion ENCODER query k session_id blocks prompt
                ++ fst (consumed ENCODER Index W session_id prompt) ++ tail
       /\ ((exists e, snd (consumed ENCODER Index W session_id prompt) = Raise e
                      /\ tail = [Yield (Error (str_of_exn e))])
           \/ (exists response,
                 snd (consumed ENCODER Index W session_id prompt) = Ok response
                 /\ tail = caught (finish Index W query log response))).
Proof.
  cbv zeta.
  destruct (talk_to_robot_internal_cases index query mode history k log session_id)
    as [e He|blocks e Hb Hp|blocks prompt e Hb Hp Hm|blocks prompt mod_res Hb Hp Hm Hf
       |blocks prompt mod_res e Hb Hp Hm Hf Hc|blocks prompt mod_res cost e Hb Hp Hm Hf Hc Hbu
       |blocks prompt mod_res cost budget Hb Hp Hm Hf Hc Hbu Hg
       |blocks prompt mod_res cost budget Hb Hp Hm Hf Hc Hbu Hg].
  1-3,5-7: left; repeat constructor.
  - left. destruct (rejection_outcome query log mod_res prompt) as (n & m & -> & _).
    apply Forall_app; split; [repeat constructor|].
    apply Forall_app; split; [|repeat constructor].
    apply Forall_forall. intros o Ho. apply in_map_iff in Ho as (line & <- & _). exact I.
  - right. exists blocks, prompt.
    destruct (snd (consumed ENCODER Index W session_id prompt)) as [response|e] eqn:Hs.
    + exists (caught (finish Index W query log response)).
      repeat split; try assumption.
      * rewrite (caught_bind_ok _ _ response) by exact Hs. reflexivity.
      * right. exists response. auto.
    + exists [Yield (Error (str_of_exn e))].
      repeat split; try assumption.
      * rewrite (caught_bind_raise _ _ e) by exact Hs. reflexivity.
      * left. exists e. auto.
Qed.

Lemma services_stream (t : list Obs) (session_id : str) :
  Forall (fun o => (exists c, o = Yield (Streaming c))
                   \/ (exists r, o = Calls (UpdateCost r session_id))) t ->
  services t = [].
Proof.
  intros H. induction H as [|o t [(c & ->)|(r & ->)] _ IH]; simpl; auto.
Qed.

(** X7: the collaborators are called in one fixed order, each at most
    once: retrieval, moderation, current cost, total budget, completion,
    followup search.  A run stops somewhere along this list and never goes
    back; the retrieval is always called. *)
Theorem services_follow_protocol (index : Index) (query mode : str)
    (history : list Message) (k : Z) (log : str -> result unit) (session_id : str) :
  exists n,
    (1 <= n)%nat
    /\ services (talk_to_robot_internal ENCODER Index W index query mode history k
                   log session_id)
       = firstn n PROTOCOL.
Proof.
  destruct (talk_to_robot_internal_cases index query mode history k log session_id)
    as [e He|blocks e Hb Hp|blocks prompt e Hb Hp Hm|blocks prompt mod_res Hb Hp Hm Hf
       |blocks prompt mod_res e Hb Hp Hm Hf Hc|blocks prompt mod_res cost e Hb Hp Hm Hf Hc Hbu
       |blocks prompt mod_res cost budget Hb Hp Hm Hf Hc Hbu Hg
       |blocks prompt mod_res cost budget Hb Hp Hm Hf Hc Hbu Hg].
  - exists 1%nat. split; [lia | reflexivity].
  - exists 1%nat. split; [lia | reflexivity].
  - exists 2%nat. split; [lia | reflexivity].
  - exists 2%nat. split; [lia|].
    destruct (rejection_outcome query log mod_res prompt) as (n & m & -> & _).
    rewrite !services_app.
    assert (Hlogs : forall lines,
              services (map (fun line => Calls (Log line)) lines) = []).
    { induction lines; simpl; auto. }
    rewrite Hlogs. reflexivity.
  - exists 3%nat. split; [lia | reflexivity].
  - exists 4%nat. split; [lia | reflexivity].
  - exists 4%nat. split; [lia | reflexivity].
  - pose proof (stream_chunks_users session_id
                  (chunks (completion W COMPLETIONS_MODEL prompt
                             (max_tokens_completion ENCODER prompt)))
                  (failure (completion W COMPLETIONS_MODEL prompt
                              (max_tokens_completion ENCODER prompt))) 0 []) as Hobs.
    fold (consumed ENCODER Index W session_id prompt) in Hobs.
    apply services_stream in Hobs.
    destruct (snd (consumed ENCODER Index W session_id prompt)) as [response|e] eqn:Hs.
    + rewrite (caught_bind_ok _ _ response) by exact Hs.
      rewrite !services_app, Hobs.
      destruct (finish_cases query log response)
        as [(e & _ & Heq)|[(e & _ & Heq)|[(e & _ & Heq)|(fs & _ & Heq)]]];
        cbv zeta in Heq; rewrite Heq.
      * exists 5%nat. split; [lia | reflexivity].
      * exists 5%nat. split; [lia | reflexivity].
      * exists 6%nat. split; [lia | reflexivity].
      * exists 6%nat. split; [lia | reflexivity].
    + rewrite (caught_bind_raise _ _ e) by exact Hs.
      rewrite !services_app, Hobs. exists 5%nat. split; [lia | reflexivity].
Qed.

(** Where an element stands that is neither in the first nor in the last
    of three parts. *)
Lemma in_middle_part {A} (a b c pre post : list A) (x : A) :
  a ++ b ++ c = pre ++ x :: post -> ~ In x a -> ~ In x c ->
  exists b1 b2, b = b1 ++ x :: b2 /\ pre = a ++ b1.
Proof.
  revert pre. induction a as [|y a IH]; intros pre H Ha Hc.
  - simpl in H. clear Ha. revert pre H.
    induction b as [|z b IHb]; intros pre H.
    + simpl in H. exfalso. apply Hc. rewrite H. apply in_elt.
    + destruct pre as [|p pre]; simpl in H.
      * injection H as -> _. exists [], b. auto.
      * injection H as -> H. destruct (IHb pre H) as (b1 & b2 & -> & Hpre).
        exists (p :: b1), b2. simpl in *. subst. auto.
  - destruct pre as [|p pre]; simpl in H.
    + injection H as -> _. exfalso. apply Ha. left. reflexivity.
    + injection H as -> H.
      destruct (IH pre H) as (b1 & b2 & -> & ->);
        [intros Hin; apply Ha; right; exact Hin | exact Hc |].
      exists b1, b2. auto.
Qed.

Lemma finish_no_stream (query : str) (log : str -> result unit) (response : str)
    (o : Obs) :
  In o (caught (finish Index W query log response)) ->
  match o with
  | Yield (Streaming _) | Calls (UpdateCost _ _) | Calls (Completion _ _ _)
  | Calls (GetCurrentCost _) | Calls (GetTotalBudget _) | Calls (CreateBudget _ _) =>
      False
  | _ => True
  end.
Proof.
  intros H.
  destruct (finish_cases query log response)
    as [(e & _ & Heq)|[(e & _ & Heq)|[(e & _ & Heq)|(fs & _ & Heq)]]];
    cbv zeta in Heq; rewrite Heq in H; simpl in H;
    repeat (destruct H as [H|H]; [subst o; exact I|]); contradiction.
Qed.

Lemma streamed_finish (query : str) (log : str -> result unit) (response : str) :
  streamed (caught (finish Index W query log response)) = [].
Proof.
  destruct (finish_cases query log response)
    as [(e & _ & Heq)|[(e & _ & Heq)|[(e & _ & Heq)|(fs & _ & Heq)]]];
    cbv zeta in Heq; rewrite Heq; reflexivity.
Qed.

(** X8: every cost update of a run is for the session of the run and
    carries the response as it stood before the chunk at hand, not after:
    the text of the streaming events yielded before the update. *)
Theorem update_cost_carries_earlier_text (index : Index) (query mode : str)
    (history : list Message) (k : Z) (log : str -> result unit) (session_id : str)
    (pre post : list Obs) (r u : str) :
  talk_to_robot_internal ENCODER Index W index query mode history k log session_id
    = pre ++ Calls (UpdateCost r u) :: post ->
  u = session_id /\ r = streamed pre.
Proof.
  intros Hrun.
  destruct (run_generation_split index query mode history k log session_id)
    as [Hearly|(blocks & prompt & tail & _ & _ & Heq & Htail)]; cbv zeta in *.
  - rewrite Hrun in Hearly. apply Forall_elt in Hearly. contradiction.
  - rewrite Heq in Hrun.
    apply in_middle_part in Hrun as (s1 & s2 & Hs & ->).
    + pose proof (stream_chunks_users session_id
                    (chunks (completion W COMPLETIONS_MODEL prompt
                               (max_tokens_completion ENCODER prompt)))
                    (failure (completion W COMPLETIONS_MODEL prompt
                                (max_tokens_completion ENCODER prompt))) 0 []) as Hobs.
      fold (consumed ENCODER Index W session_id prompt) in Hobs.
      rewrite Hs in Hobs. apply Forall_elt in Hobs as [(c & Hc)|(r' & Hr')];
        [discriminate Hc|]. injection Hr' as _ ->.
      split; [reflexivity|].
      apply stream_chunks_updates in Hs. rewrite streamed_app. exact Hs.
    + simpl. intros H. repeat (destruct H as [H|H]; try discriminate H). exact H.
    + destruct Htail as [(e & _ & ->)|(response & _ & ->)].
      * simpl. intros [H|[]]. discriminate H.
      * intros H. apply finish_no_stream in H. exact H.
Qed.

(** The response the body ends with is the text the run streamed. *)
Lemma generated_response (index : Index) (query mode : str)
    (history : list Message) (k : Z) (log : str -> result unit) (session_id : str)
    (o : Obs) :
  let run :=
    talk_to_robot_internal ENCODER Index W index query mode history k log session_id in
  In o run ->
  match o with Yield (Done _) | Calls (MultisearchAuthored _ _) => True | _ => False end ->
  In o (caught (finish Index W query log (streamed run))).
Proof.
  cbv zeta. intros Hin Ho.
  destruct (run_generation_split index query mode history k log session_id)
    as [Hearly|(blocks & prompt & tail & _ & _ & Heq & Htail)]; cbv zeta in *.
  - rewrite Forall_forall in Hearly. apply Hearly in Hin.
    destruct o as [[| | |]|[]]; contradiction.
  - pose proof (stream_chunks_users session_id
                  (chunks (completion W COMPLETIONS_MODEL prompt
                             (max_tokens_completion ENCODER prompt)))
                  (failure (completion W COMPLETIONS_MODEL prompt
                              (max_tokens_completion ENCODER prompt))) 0 []) as Hobs.
    fold (consumed ENCODER Index W session_id prompt) in Hobs.
    rewrite Forall_forall in Hobs.
    rewrite Heq in *. clear Heq.
    apply in_app_or in Hin as [Hin|Hin].
    { simpl in Hin. repeat (destruct Hin as [Hin|Hin]; [subst o; contradiction|]).
      contradiction. }
    apply in_app_or in Hin as [Hin|Hin].
    { apply Hobs in Hin as [(c & ->)|(r & ->)]; contradiction. }
    destruct Htail as [(e & _ & ->)|(response & Hs & ->)].
    { destruct Hin as [<-|[]]. contradiction. }
    assert (Hresp : response
                    = streamed (until_completion ENCODER query k session_id blocks prompt
                                ++ fst (consumed ENCODER Index W session_id prompt)
                                ++ caught (finish Index W query log response))).
    { rewrite !streamed_app, streamed_finish, app_nil_r.
      apply stream_chunks_result in Hs. exact Hs. }
    rewrite <- Hresp. exact Hin.
Qed.

(** X9: the followup search is asked once the stream is consumed, about
    the query and the whole text the run streamed. *)
Theorem followups_asked_about_streamed_text (index : Index) (query mode : str)
    (history : list Message) (k : Z) (log : str -> result unit) (session_id : str)
    (qs : list str) (dbg : bool) :
  let run :=
    talk_to_robot_internal ENCODER Index W index query mode history k log session_id in
  In (Calls (MultisearchAuthored qs dbg)) run ->
  qs = [query; streamed run] /\ dbg = DEBUG_PRINT W.
Proof.
  cbv zeta. intros Hin.
  apply generated_response in Hin; [|exact I]. cbv zeta in Hin.
  destruct (finish_cases query log
              (streamed (talk_to_robot_internal ENCODER Index W index query mode
                           history k log session_id)))
    as [(e & _ & Heq)|[(e & _ & Heq)|[(e & _ & Heq)|(fs & _ & Heq)]]];
    cbv zeta in Heq; rewrite Heq in Hin; simpl in Hin;
    repeat (destruct Hin as [Hin|Hin]; try discriminate Hin); try contradiction;
    injection Hin as <- <-; auto.
Qed.

(** X10: a done event carries what the followup search returned for the
    query and the text the run streamed. *)
Theorem done_carries_followups_of_streamed_text (index : Index) (query mode : str)
    (history : list Message) (k : Z) (log : str -> result unit) (session_id : str)
    (fs : list Followup) :
  let run :=
    talk_to_robot_internal ENCODER Index W index query mode history k log session_id in
  In (Yield (Done fs)) run ->
  multisearch_authored W [query; streamed run] (DEBUG_PRINT W) = Ok fs.
Proof.
  cbv zeta. intros Hin.
  apply generated_response in Hin; [|exact I]. cbv zeta in Hin.
  destruct (finish_cases query log
              (streamed (talk_to_robot_internal ENCODER Index W index query mode
                           history k log session_id)))
    as [(e & _ & Heq)|[(e & _ & Heq)|[(e & _ & Heq)|(fs' & Hfs & Heq)]]];
    cbv zeta in Heq; rewrite Heq in Hin; simpl in Hin;
    repeat (destruct Hin as [Hin|Hin]; try discriminate Hin); try contradiction.
  injection Hin as <-. exact Hfs.
Qed.

(** Every ledger call of a run is about the session of the run. *)
Lemma ledger_calls_of_run (index : Index) (query mode : str)
    (history : list Message) (k : Z) (log : str -> result unit) (session_id : str)
    (c : Call) (u : str) :
  In (Calls c)
     (talk_to_robot_internal ENCODER Index W index query mode history k log session_id) ->
  ledger_user c = Some u -> u = session_id.
Proof.
  intros Hin Hu.
  destruct (run_generation_split index query mode history k log session_id)
    as [Hearly|(blocks & prompt & tail & _ & _ & Heq & Htail)]; cbv zeta in *.
  - rewrite Forall_forall in Hearly. apply Hearly in Hin.
    destruct c; simpl in Hu; try discriminate Hu; try contradiction; congruence.
  - pose proof (stream_chunks_users session_id
                  (chunks (completion W COMPLETIONS_MODEL prompt
                             (max_tokens_completion ENCODER prompt)))
                  (failure (completion W COMPLETIONS_MODEL prompt
                              (max_tokens_completion ENCODER prompt))) 0 []) as Hobs.
    fold (consumed ENCODER Index W session_id prompt) in Hobs.
    rewrite Forall_forall in Hobs.
    rewrite Heq in Hin. clear Heq.
    apply in_app_or in Hin as [Hin|Hin].
    { simpl in Hin.
      repeat (destruct Hin as [Hin|Hin];
              [try discriminate Hin; injection Hin as <-; simpl in Hu; congruence|]).
      contradiction. }
    apply in_app_or in Hin as [Hin|Hin].
    { apply Hobs in Hin as [(c' & Hc')|(r & Hr)]; [discriminate Hc'|].
      injection Hr as ->. simpl in Hu. congruence. }
    destruct Htail as [(e & _ & ->)|(response & _ & ->)].
    { destruct Hin as [Hin|[]]. discriminate Hin. }
    apply finish_no_stream in Hin. destruct c; simpl in Hu; try discriminate Hu; contradiction.
Qed.

End RunCaseFacts.

(** ** The event-stream adapter *)

(** X11: [talk_to_robot] opens a budget of 10 for a fresh session before
    anything else, and every ledger call that follows (the two reads of the
    gate, the cost updates) is about that session. *)
Theorem talk_to_robot_one_session (dumps : Event -> str) (ENCODER : Tokenizer)
    (Index : Type) (W : World Index) (index : Index) (query mode : str)
    (history : list Message) (k : Z) (log : str -> result unit) :
  let sent := fst (talk_to_robot dumps ENCODER W index query mode history k log) in
  (exists rest, sent = Invoked (CreateBudget (inject_Z 10) (uuid4 W)) :: rest)
  /\ (forall c u, In (Invoked c) sent -> ledger_user c = Some u -> u = uuid4 W).
Proof.
  cbv zeta. unfold talk_to_robot.
  destruct (create_budget W (inject_Z 10) (uuid4 W)); cbn [fst].
  - split; [eauto|]. intros c u [Hin|Hin] Hu.
    + injection Hin as <-. simpl in Hu. congruence.
    + apply in_map_iff in Hin as ([e|c'] & Heq & Hin); [discriminate Heq|].
      injection Heq as ->.
      eapply ledger_calls_of_run; eassumption.
  - split; [eauto|]. intros c u [Hin|[]] Hu.
    injection Hin as <-. simpl in Hu. congruence.
Qed.

(** ** More on assembled prompts *)

Section PromptFacts.

Variable ENCODER : Tokenizer.

(** The history segment of an assembled prompt is what the loop collected,
    in reverse. *)
Lemma history_segment_collected (query mode : str) (history : list Message)
    (context : list Block) (prompt : list Message) :
  construct_prompt ENCODER query mode history context = Ok prompt ->
  history_segment prompt
  = rev (collect_history ENCODER (last_entries_reversed history) 0 []).
Proof.
  intros H. apply construct_prompt_parts in H as (system & question & _ & _ & ->).
  apply history_segment_parts.
Qed.

Lemma kept_history_folded (query mode : str) (history : list Message)
    (context : list Block) (prompt : list Message) :
  construct_prompt ENCODER query mode history context = Ok prompt ->
  Forall2 (folded ENCODER)
    (skipn (length history - length (history_segment prompt)) history)
    (history_segment prompt).
Proof.
  intros H. rewrite (history_segment_collected _ _ _ _ _ H).
  pose proof (kept_history_at_most_nine ENCODER history) as Hnine.
  destruct (collect_history_inv ENCODER (last_entries_reversed history) 0 [])
    as (collected & Heq & Hlen & Hfold & _).
  rewrite Heq in *. simpl app in *. rewrite length_rev.
  unfold last_entries_reversed in Hfold.
  rewrite firstn_firstn, Nat.min_l, firstn_rev in Hfold by lia.
  apply Forall2_rev in Hfold. rewrite rev_involutive in Hfold. exact Hfold.
Qed.

Lemma Forall2_right {A B} (R : A -> B -> Prop) (P : B -> Prop) (l1 : list A)
    (l2 : list B) :
  (forall a b, R a b -> P b) -> Forall2 R l1 l2 -> Forall P l2.
Proof. intros HR H. induction H; constructor; eauto. Qed.

(** X12: a user turn of the history is never cut and never scrubbed: it
    enters the prompt as "Q: " followed by its whole content; an entry with
    any other role enters as an assistant message. *)
Theorem user_turns_enter_whole (query mode : str) (history : list Message)
    (context : list Block) (prompt : list Message) :
  construct_prompt ENCODER query mode history context = Ok prompt ->
  Forall2 (fun h m =>
             (role h = lit "user"
              /\ m = {| role := lit "user"; content := lit "Q: " ++ content h |})
             \/ (role h <> lit "user" /\ role m = lit "assistant"))
    (skipn (length history - length (history_segment prompt)) history)
    (history_segment prompt).
Proof.
  intros H. apply kept_history_folded in H.
  eapply Forall2_impl; [|exact H].
  intros h m (tc & ->). unfold fold_entry.
  destruct (str_eqb_spec (role h) (lit "user")); [left | right]; auto.
Qed.

(** X13: no assistant message of the history segment holds a numbered
    citation: no bracketed run of digits is left in it.  (The cap comes
    before the scrub, so a citation the cap cuts, as in "[3 ...", is left
    cut.) *)
Theorem assistant_history_has_no_citation (query mode : str)
    (history : list Message) (context : list Block) (prompt : list Message) :
  construct_prompt ENCODER query mode history context = Ok prompt ->
  Forall (fun m => role m = lit "assistant" -> ~ contains_citation (content m))
    (history_segment prompt).
Proof.
  intros H. apply kept_history_folded in H.
  eapply Forall2_right; [|exact H].
  intros h m (tc & ->). unfold fold_entry.
  destruct (str_eqb (role h) (lit "user")); cbn [role content].
  - intros Hrole. exfalso. revert Hrole. vm_compute. discriminate.
  - intros _. apply censor_sources_clean.
Qed.

(** X14: an assembled prompt has at least two messages and at most
    eleven, and never more than the history has entries, plus two. *)
Theorem prompt_length_bounds (query mode : str) (history : list Message)
    (context : list Block) (prompt : list Message) :
  construct_prompt ENCODER query mode history context = Ok prompt ->
  (2 <= length prompt <= 11)%nat
  /\ (length prompt <= length history + 2)%nat.
Proof.
  intros H. apply construct_prompt_parts in H as (system & question & _ & _ & ->).
  pose proof (kept_history_at_most_nine ENCODER history) as Hnine.
  destruct (collect_history_inv ENCODER (last_entries_reversed history) 0 [])
    as (collected & Heq & Hlen & _).
  rewrite Heq in *. simpl app in *. unfold last_entries_reversed in Hlen.
  rewrite length_firstn, length_rev in Hlen.
  simpl. rewrite length_app, length_rev. simpl. lia.
Qed.

Lemma question_prompt_form (query mode question : str) :
  question_prompt query mode = Ok question ->
  exists clause,
    question = CITE_INSTRUCTIONS ++ clause ++ lit "Q: " ++ query
    /\ ((mode = lit "default" /\ clause = [])
        \/ (mode = lit "concise" /\ clause = CONCISE_CLAUSE)
        \/ (mode = lit "rookie" /\ clause = ROOKIE_CLAUSE)).
Proof.
  unfold question_prompt.
  destruct (str_eqb_spec mode (lit "concise")) as [->|_].
  { intros [= <-]. exists CONCISE_CLAUSE. auto. }
  destruct (str_eqb_spec mode (lit "rookie")) as [->|_].
  { intros [= <-]. exists ROOKIE_CLAUSE. auto. }
  destruct (str_eqb_spec mode (lit "default")) as [->|_]; [|discriminate].
  intros [= <-]. exists []. auto.
Qed.

(** X15: the mode and the query bear on the last message only: two
    prompts assembled from the same history and context agree on everything
    before it, and the last message is the citation instructions, the clause
    of the mode and "Q: " with the query. *)
Theorem mode_and_query_change_last_message_only (query1 mode1 query2 mode2 : str)
    (history : list Message) (context : list Block) (prompt1 prompt2 : list Message) :
  construct_prompt ENCODER query1 mode1 history context = Ok prompt1 ->
  construct_prompt ENCODER query2 mode2 history context = Ok prompt2 ->
  removelast prompt1 = removelast prompt2
  /\ exists clause,
       last prompt1 {| role := []; content := [] |}
       = {| role := lit "user";
            content := CITE_INSTRUCTIONS ++ clause ++ lit "Q: " ++ query1 |}
       /\ ((mode1 = lit "default" /\ clause = [])
           \/ (mode1 = lit "concise" /\ clause = CONCISE_CLAUSE)
           \/ (mode1 = lit "rookie" /\ clause = ROOKIE_CLAUSE)).
Proof.
  intros H1 H2.
  apply construct_prompt_parts in H1 as (system1 & question1 & Hs1 & Hq1 & ->).
  apply construct_prompt_parts in H2 as (system2 & question2 & Hs2 & Hq2 & ->).
  rewrite Hs1 in Hs2. injection Hs2 as <-.
  rewrite !app_assoc, !removelast_last, !last_last. split; [reflexivity|].
  apply question_prompt_form in Hq1 as (clause & -> & Hmode). eauto.
Qed.

(** The loop stops before the end of its input only when the count has
    gone over the limit. *)
Lemma collect_history_stops (messages : list Message) :
  forall token_count history_trnc collected,
    collect_history ENCODER messages token_count history_trnc
      = history_trnc ++ collected ->
    (length collected < length messages)%nat ->
    HISTORY_LIMIT < token_count + messages_cost ENCODER collected.
Proof.
  induction messages as [|message rest IH]; intros tc acc collected Heq Hlen.
  - simpl in Hlen. lia.
  - cbn [collect_history] in Heq. cbv zeta in Heq.
    set (m := fold_entry ENCODER message tc) in *.
    destruct (Z.gtb_spec (tc + len (encode ENCODER (content m))) HISTORY_LIMIT)
      as [Hover|Hfits].
    + apply app_inv_head in Heq. subst collected.
      unfold messages_cost, token_count_of. simpl. lia.
    + destruct (collect_history_inv ENCODER rest
                  (tc + len (encode ENCODER (content m))) (acc ++ [m]))
        as (more & Hmore & _).
      rewrite Hmore, <- app_assoc in Heq. apply app_inv_head in Heq. subst collected.
      simpl in Hlen.
      specialize (IH _ _ more Hmore ltac:(lia)).
      change (messages_cost ENCODER ([m] ++ more))
        with (token_count_of ENCODER (content m) + messages_cost ENCODER more).
      unfold token_count_of. lia.
Qed.

(** X16: the history is cut short only by the limit: when fewer entries
    are kept than the slice offers (nine, or the whole history if it is
    shorter), the kept messages cost more than
    [int(NUM_TOKENS * HISTORY_FRACTION)] together. *)
Theorem history_cut_only_over_limit (query mode : str) (history : list Message)
    (context : list Block) (prompt : list Message) :
  construct_prompt ENCODER query mode history context = Ok prompt ->
  (length (history_segment prompt) < Nat.min 9 (length history))%nat ->
  HISTORY_LIMIT < messages_cost ENCODER (history_segment prompt).
Proof.
  intros H Hshort. rewrite (history_segment_collected _ _ _ _ _ H) in *.
  rewrite length_rev in Hshort. rewrite messages_cost_rev.
  assert (Hlen : length (last_entries_reversed history) = Nat.min 9 (length history))
    by (unfold last_entries_reversed; rewrite length_firstn, length_rev; reflexivity).
  apply (collect_history_stops (last_entries_reversed history) 0 [] _ eq_refl).
  rewrite Hlen. exact Hshort.
Qed.

(** The running count at each entry is the cost of what was collected
    before it. *)
Lemma collect_history_budgets (messages : list Message) :
  forall token_count history_trnc collected,
    collect_history ENCODER messages token_count history_trnc
      = history_trnc ++ collected ->
    forall i h m,
      nth_error messages i = Some h -> nth_error collected i = Some m ->
      m = fold_entry ENCODER h
            (token_count + messages_cost ENCODER (firstn i collected)).
Proof.
  induction messages as [|message rest IH]; intros tc acc collected Heq i h m Hh Hm.
  - destruct i; discriminate Hh.
  - cbn [collect_history] in Heq. cbv zeta in Heq.
    set (m0 := fold_entry ENCODER message tc) in *.
    assert (Hhead : exists more, collected = m0 :: more
              /\ (more = [] \/ collect_history ENCODER rest
                                 (tc + len (encode ENCODER (content m0))) (acc ++ [m0])
                               = (acc ++ [m0]) ++ more)).
    { destruct (_ >? _).
      - apply app_inv_head in Heq. subst collected. exists []. auto.
      - destruct (collect_history_inv ENCODER rest
                    (tc + len (encode ENCODER (content m0))) (acc ++ [m0]))
          as (more & Hmore & _).
        rewrite Hmore, <- app_assoc in Heq. apply app_inv_head in Heq.
        subst collected. exists more. auto. }
    destruct Hhead as (more & -> & Hmore).
    destruct i as [|i]; simpl in Hh, Hm.
    + injection Hh as <-. injection Hm as <-.
      unfold messages_cost. simpl. rewrite Z.add_0_r. reflexivity.
    + destruct Hmore as [->|Hmore]; [destruct i; discriminate Hm|].
      rewrite (IH _ _ more Hmore i h m Hh Hm). f_equal.
      change (messages_cost ENCODER (firstn (S i) (m0 :: more)))
        with (token_count_of ENCODER (content m0)
              + messages_cost ENCODER (firstn i more)).
      unfold token_count_of. lia.
Qed.

(** X17: going back from the most recent entry, each kept message is its
    entry folded with the cost of the more recent kept messages as running
    count: that is what is taken off the limit before an answer is capped. *)
Theorem kept_message_budget (query mode : str) (history : list Message)
    (context : list Block) (prompt : list Message) (i : nat) (h m : Message) :
  construct_prompt ENCODER query mode history context = Ok prompt ->
  nth_error (rev history) i = Some h ->
  nth_error (rev (history_segment prompt)) i = Some m ->
  m = fold_entry ENCODER h
        (messages_cost ENCODER (firstn i (rev (history_segment prompt)))).
Proof.
  intros H Hh Hm. rewrite (history_segment_collected _ _ _ _ _ H) in *.
  rewrite rev_involutive in *.
  pose proof (kept_history_at_most_nine ENCODER history) as Hnine.
  assert (Hi : (i < 9)%nat).
  { assert (nth_error (collect_history ENCODER (last_entries_reversed history) 0 []) i
            <> None) by congruence.
    apply nth_error_Some in H0. lia. }
  apply (collect_history_budgets (last_entries_reversed history) 0 [] _ eq_refl i h m);
    [|exact Hm].
  unfold last_entries_reversed. rewrite nth_error_firstn.
  apply Nat.ltb_lt in Hi. rewrite Hi. exact Hh.
Qed.

End PromptFacts.

(** ** The letters of the citations *)

Lemma chr_value (n : Z) (s : str) : chr n = Ok s -> s = [Z.to_N n] /\ 0 <= n.
Proof.
  unfold chr. destruct (Z.leb_spec 0 n); simpl; [|discriminate].
  destruct (n <? 1114112); [|discriminate]. intros [= <-]. auto.
Qed.

Lemma letter_keys_inv (cs : list Citation) :
  forall i m,
    0 <= i -> letter_keys i cs = Ok m ->
    map snd m = cs
    /\ Forall (fun kv => exists j, i <= j /\ fst kv = [Z.to_N (ord_a + j)]) m
    /\ NoDup (map fst m).
Proof.
  induction cs as [|c cs IH]; intros i m Hi; cbn [letter_keys].
  - intros [= <-]. repeat split; constructor.
  - destruct (chr (ord_a + i)) as [letter|e] eqn:Hchr; [|discriminate].
    destruct (letter_keys (i + 1) cs) as [m'|e] eqn:Hrest; [|discriminate].
    intros [= <-]. apply chr_value in Hchr as [-> _].
    destruct (IH (i + 1) m' ltac:(lia) Hrest) as (Hsnd & Hkeys & Hnodup).
    cbn [map fst snd]. repeat split.
    + rewrite Hsnd. reflexivity.
    + constructor; [exists i; split; [lia | reflexivity]|].
      eapply Forall_impl; [|exact Hkeys]. intros kv (j & Hj & Hkv). exists j. split; [lia | exact Hkv].
    + constructor; [|exact Hnodup].
      intros Hin. apply in_map_iff in Hin as (kv & Hkv & Hin).
      rewrite Forall_forall in Hkeys. destruct (Hkeys kv Hin) as (j & Hj & Hfst).
      pose proof (eq_trans (eq_sym Hfst) Hkv) as Hsame.
      apply (f_equal (hd 0%N)) in Hsame. cbn [hd] in Hsame.
      apply Z2N.inj in Hsame; unfold ord_a in *; lia.
Qed.

(** X18: the letters given to the citations are pairwise distinct, so the
    dict of the single-shot adapter has one entry for each citation, in
    their order. *)
Theorem citation_letters_distinct (cs : list Citation)
    (m : list (str * Citation)) :
  letter_keys 0 cs = Ok m -> map snd m = cs /\ NoDup (map fst m).
Proof.
  intros H. destruct (letter_keys_inv cs 0 m ltac:(lia) H) as (Hsnd & _ & Hnodup). auto.
Qed.

Lemma citation_letters_labels (blocks : list Block) :
  forall i strs m,
    block_strs i blocks = Ok strs ->
    letter_keys i (map citation_of blocks) = Ok m ->
    Forall2 (fun kv s => exists rest, s = lit "[" ++ fst kv ++ lit "] " ++ rest) m strs.
Proof.
  induction blocks as [|block rest IH]; intros i strs m; cbn [block_strs letter_keys map].
  - intros [= <-] [= <-]. constructor.
  - unfold block_str. destruct (chr (ord_a + i)) as [letter|e]; [|discriminate].
    destruct (block_strs (i + 1) rest) as [strs'|e] eqn:Hstrs; [|discriminate].
    destruct (letter_keys (i + 1) (map citation_of rest)) as [m'|e] eqn:Hm; [|discriminate].
    intros [= <-] [= <-]. constructor; [|eapply IH; eassumption].
    simpl fst. eexists. reflexivity.
Qed.

(** X19: the letter under which the single-shot adapter files the
    citation of a block is the letter that labels the block in the prompt. *)
Theorem citation_letters_are_prompt_labels (blocks : list Block)
    (strs : list str) (m : list (str * Citation)) :
  block_strs 0 blocks = Ok strs ->
  letter_keys 0 (map citation_of blocks) = Ok m ->
  Forall2 (fun kv s => exists rest, s = lit "[" ++ fst kv ++ lit "] " ++ rest) m strs.
Proof. apply citation_letters_labels. Qed.

(** ** More on the single-shot adapter *)

Lemma streamed_events (t : list Obs) :
  streamed t
  = flat_map (fun e => match e with Streaming c => c | _ => [] end) (events t).
Proof.
  induction t as [|[[| | |]|c] t IH]; simpl; rewrite ?IH; reflexivity.
Qed.

Lemma simple_loop_response (evs : list Event) :
  forall res0 res,
    (forall msg, ~ In (Error msg) evs) ->
    simple_loop evs res0 = Ok res ->
    response res
    = response res0
      ++ flat_map (fun e => match e with Streaming c => c | _ => [] end) evs.
Proof.
  induction evs as [|e evs IH]; intros res0 res Hno; cbn [simple_loop].
  - intros [= <-]. simpl. rewrite app_nil_r. reflexivity.
  - assert (Hno' : forall msg, ~ In (Error msg) evs)
      by (intros msg Hin; apply (Hno msg); right; exact Hin).
    destruct e as [phase [cs|]|c|fs|msg]; cbn [simple_step flat_map].
    + destruct phase; try (intros H; apply (IH _ _ Hno' H)).
      destruct (letter_keys 0 cs); [|discriminate].
      intros H. apply (IH _ _ Hno' H).
    + destruct phase; intros H; apply (IH _ _ Hno' H).
    + intros H. rewrite (IH _ _ Hno' H). simpl. rewrite app_assoc. reflexivity.
    + intros H. apply (IH _ _ Hno' H).
    + exfalso. apply (Hno msg). left. reflexivity.
Qed.

Lemma simple_loop_citations (evs : list Event) :
  forall res0 res,
    Forall (fun e => match e with Loading Semantic (Some _) => False | _ => True end) evs ->
    simple_loop evs res0 = Ok res ->
    citations res = citations res0.
Proof.
  induction evs as [|e evs IH]; intros res0 res Hno; cbn [simple_loop].
  - intros [= <-]. reflexivity.
  - inversion Hno as [|? ? He Hevs]; subst.
    destruct e as [phase [cs|]|c|fs|msg]; cbn [simple_step].
    + destruct phase; try contradiction; intros H; apply (IH _ _ Hevs H).
    + destruct phase; intros H; apply (IH _ _ Hevs H).
    + intros H. rewrite (IH _ _ Hevs H). reflexivity.
    + intros H. apply (IH _ _ Hevs H).
    + intros H. rewrite (IH _ _ Hevs H). reflexivity.
Qed.

Section SimpleFacts.

Variable ENCODER : Tokenizer.
Variable Index : Type.
Variable W : World Index.

(** X20: when the run the adapter consumes reaches its done event, the
    response the adapter returns is the whole text the run streamed. *)
Theorem simple_response_is_streamed_text (index : Index) (query : str)
    (log : str -> result unit) (res : SimpleResult) (fs : list Followup) :
  let run := talk_to_robot_internal ENCODER Index W index query (lit "default") []
               STANDARD_K log (uuid4 W) in
  talk_to_robot_simple ENCODER W index query log = Ok res ->
  In (Done fs) (events run) ->
  response res = streamed run.
Proof.
  cbv zeta. unfold talk_to_robot_simple. cbv zeta.
  destruct (create_budget W (inject_Z 10) (uuid4 W)); [|discriminate].
  intros Hres Hin.
  destruct (ordered_terminal_last _ (Done fs)
              (run_events_ordered ENCODER Index W index query (lit "default") []
                 STANDARD_K log (uuid4 W)) Hin eq_refl)
    as (before & Heq & Hbefore).
  rewrite streamed_events.
  apply simple_loop_response in Hres; [exact Hres|].
  rewrite Heq. intros msg Hmsg. apply in_app_or in Hmsg as [Hmsg|[Hmsg|[]]].
  - rewrite Forall_forall in Hbefore. apply Hbefore in Hmsg. discriminate Hmsg.
  - discriminate Hmsg.
Qed.

(** After a retrieval that succeeded, the run goes on from the event that
    carries the citations, and yields no other such event. *)
Lemma run_after_retrieval (index : Index) (query mode : str)
    (history : list Message) (k : Z) (log : str -> result unit) (session_id : str)
    (blocks : list Block) :
  get_top_k_blocks W index query k = Ok blocks ->
  exists rest,
    talk_to_robot_internal ENCODER Index W index query mode history k log session_id
    = until_prompt query k blocks ++ rest
    /\ Forall (fun e => match e with Loading Semantic (Some _) => False | _ => True end)
         (events rest).
Proof.
  intros Hblocks.
  destruct (talk_to_robot_internal_cases ENCODER Index W index query mode history k
              log session_id)
    as [e He|blocks' e Hb Hp|blocks' prompt e Hb Hp Hm|blocks' prompt mod_res Hb Hp Hm Hf
       |blocks' prompt mod_res e Hb Hp Hm Hf Hc
       |blocks' prompt mod_res cost e Hb Hp Hm Hf Hc Hbu
       |blocks' prompt mod_res cost budget Hb Hp Hm Hf Hc Hbu Hg
       |blocks' prompt mod_res cost budget Hb Hp Hm Hf Hc Hbu Hg];
    same_answers.
  - eexists. split; [reflexivity | repeat constructor].
  - eexists. split; [unfold until_moderation; rewrite <- app_assoc; reflexivity|].
    repeat constructor.
  - destruct (rejection_outcome query log mod_res prompt) as (n & m & -> & _).
    eexists. split; [unfold until_moderation; rewrite <- app_assoc; reflexivity|].
    rewrite !events_app. apply Forall_app; split; [repeat constructor|].
    apply Forall_app; split; [|repeat constructor].
    assert (Hlogs : forall lines,
              events (map (fun line => Calls (Log line)) lines) = [])
      by (induction lines; simpl; auto).
    rewrite Hlogs. constructor.
  - eexists. split;
      [unfold until_cost, until_moderation; rewrite <- !app_assoc; reflexivity|].
    repeat constructor.
  - eexists. split;
      [unfold until_budget, until_cost, until_moderation; rewrite <- !app_assoc;
       reflexivity|].
    repeat constructor.
  - eexists. split;
      [unfold until_budget, until_cost, until_moderation; rewrite <- !app_assoc;
       reflexivity|].
    repeat constructor.
  - eexists. split;
      [unfold until_completion, until_budget, until_cost, until_moderation;
       rewrite <- !app_assoc; reflexivity|].
    rewrite !events_app. do 4 (apply Forall_app; split; [repeat constructor|]).
    pose proof (stream_chunks_users Index W session_id
                  (chunks (completion W COMPLETIONS_MODEL prompt
                             (max_tokens_completion ENCODER prompt)))
                  (failure (completion W COMPLETIONS_MODEL prompt
                              (max_tokens_completion ENCODER prompt))) 0 []) as Hobs.
    fold (consumed ENCODER Index W session_id prompt) in Hobs.
    assert (Hstream : Forall (fun e => match e with
                                       | Loading Semantic (Some _) => False
                                       | _ => True
                                       end)
                        (events (fst (consumed ENCODER Index W session_id prompt)))).
    { induction Hobs as [|o t [(c & ->)|(r & ->)] _ IH]; simpl; auto. }
    destruct (snd (consumed ENCODER Index W session_id prompt)) as [response|e] eqn:Hs.
    + rewrite (caught_bind_ok _ _ response) by exact Hs.
      rewrite events_app. apply Forall_app; split; [exact Hstream|].
      destruct (finish_cases Index W query log response)
        as [(e & _ & Heq)|[(e & _ & Heq)|[(e & _ & Heq)|(fs & _ & Heq)]]];
        cbv zeta in Heq; rewrite Heq; repeat constructor.
    + rewrite (caught_bind_raise _ _ e) by exact Hs.
      rewrite events_app. apply Forall_app; split; [exact Hstream | repeat constructor].
Qed.

(** X21: the single-shot adapter returns citations exactly when the
    retrieval succeeded: one for each retrieved block, in their order, under
    pairwise distinct letters; when the retrieval fails it returns none, and
    the failure's message as response. *)
Theorem simple_citations_follow_retrieval (index : Index) (query : str)
    (log : str -> result unit) (res : SimpleResult) :
  talk_to_robot_simple ENCODER W index query log = Ok res ->
  (forall e, get_top_k_blocks W index query STANDARD_K = Raise e ->
             citations res = None /\ response res = str_of_exn e)
  /\ (forall blocks, get_top_k_blocks W index query STANDARD_K = Ok blocks ->
       exists m, citations res = Some m
                 /\ map snd m = map citation_of blocks
                 /\ NoDup (map fst m)).
Proof.
  unfold talk_to_robot_simple. cbv zeta.
  destruct (create_budget W (inject_Z 10) (uuid4 W)); [|discriminate].
  intros Hres. split.
  - intros e He.
    destruct (talk_to_robot_internal_cases ENCODER Index W index query (lit "default") []
                STANDARD_K log (uuid4 W)); same_answers.
    simpl in Hres. injection Hres as <-. auto.
  - intros blocks Hblocks.
    destruct (run_after_retrieval index query (lit "default") [] STANDARD_K log
                (uuid4 W) blocks Hblocks) as (rest & Heq & Hrest).
    rewrite Heq, events_app in Hres.
    cbn [until_prompt until_retrieval events flat_map app simple_loop simple_step] in Hres.
    destruct (letter_keys 0 (map citation_of blocks)) as [m|e] eqn:Hkeys; [|discriminate].
    apply simple_loop_citations in Hres; [|exact Hrest].
    exists m. split; [exact Hres|].
    destruct (letter_keys_inv _ 0 m ltac:(lia) Hkeys) as (Hsnd & _ & Hnodup). auto.
Qed.

End SimpleFacts.

(** ** The further properties on the samples *)

Lemma censor_sources_without_citation_witness :
  censor_sources (lit "see [x] and [a1], or [] and 12]")
  = lit "see [x] and [a1], or [] and 12]".
Proof.
  apply (censor_sources_without_citation (lit "see [x] and [a1], or [] and 12]")).
  intros H. apply scan_citation with (q := Outside) in H.
  vm_compute in H. discriminate H.
Defined.



(** With a log that refuses the line that announces the rejection, the
    second of the six, the run ends after two log calls and its error is the
    log's. *)
Lemma flagged_run_with_failing_log :
  let run :=
    talk_to_robot_internal codepoint_tokenizer unit
      (scenario_world (Ok [sample_block]) [false; true]) tt
      (lit "What is corrigibility?") (lit "default") [] STANDARD_K
      (fun line => if str_eqb line (lit "MODERATION REJECTED")
                   then Raise (Exception (lit "webhook unreachable")) else Ok tt)
      (lit "3f2b8c1e-session") in
  calls run
  = [GetTopKBlocks (lit "What is corrigibility?") 10]
    ++ firstn 1 (skipn 1 (calls run))
    ++ [Log dashes; Log (lit "MODERATION REJECTED")]
  /\ last (events run) (Loading Semantic None) = Error (lit "webhook unreachable").
Proof. vm_compute. split; reflexivity. Qed.

Lemma completion_only_after_moderation_witness :
  exists prompt,
    construct_prompt codepoint_tokenizer (lit "What is corrigibility?")
      (lit "default") [] [sample_block] = Ok prompt
    /\ exists blocks mod_res,
         get_top_k_blocks (scenario_world (Ok [sample_block]) [false; false]) tt
           (lit "What is corrigibility?") STANDARD_K = Ok blocks
         /\ construct_prompt codepoint_tokenizer (lit "What is corrigibility?")
              (lit "default") [] blocks = Ok prompt
         /\ moderation_create (scenario_world (Ok [sample_block]) [false; false])
              [lit "What is corrigibility?"; prompt_string prompt] = Ok mod_res
         /\ existsb (fun x => x) (flagged mod_res) = false
         /\ COMPLETIONS_MODEL = COMPLETIONS_MODEL
         /\ NUM_TOKENS - prompt_tokens codepoint_tokenizer prompt - 50
            = NUM_TOKENS - prompt_tokens codepoint_tokenizer prompt - 50.
Proof.
  destruct (construct_prompt codepoint_tokenizer (lit "What is corrigibility?")
              (lit "default") [] [sample_block]) as [prompt|e] eqn:E.
  - exists prompt. split; [reflexivity|].
    apply (completion_only_after_moderation codepoint_tokenizer unit
             (scenario_world (Ok [sample_block]) [false; false])
             tt (lit "What is corrigibility?") (lit "default") [] STANDARD_K quiet_log
             (lit "3f2b8c1e-session") COMPLETIONS_MODEL prompt
             (NUM_TOKENS - prompt_tokens codepoint_tokenizer prompt - 50)).
    apply (over_budget_session_requests_completion codepoint_tokenizer unit
             (scenario_world (Ok [sample_block]) [false; false])
             tt (lit "What is corrigibility?") (lit "default") [] STANDARD_K quiet_log
             (lit "3f2b8c1e-session") [sample_block] prompt
             {| flagged := [false; false]; results_json := lit "[]" |}
             (12 # 1) (10 # 1));
      try reflexivity. exact E.
  - vm_compute in E. discriminate E.
Defined.

Lemma update_cost_carries_earlier_text_witness :
  let run := run_scenario (Ok [sample_block]) [false; false] in
  lit "3f2b8c1e-session" = lit "3f2b8c1e-session"
  /\ lit "Hi" = streamed (firstn 11 run).
Proof.
  apply (update_cost_carries_earlier_text codepoint_tokenizer unit
           (scenario_world (Ok [sample_block]) [false; false])
           tt (lit "What is corrigibility?") (lit "default") [] STANDARD_K quiet_log
           (lit "3f2b8c1e-session")
           (firstn 11 (run_scenario (Ok [sample_block]) [false; false]))
           (skipn 12 (run_scenario (Ok [sample_block]) [false; false]))
           (lit "Hi") (lit "3f2b8c1e-session")).
  vm_compute. reflexivity.
Defined.

Lemma followups_asked_about_streamed_text_witness :
  let run := run_scenario (Ok [sample_block]) [false; false] in
  [lit "What is corrigibility?"; lit "Hi there"]
  = [lit "What is corrigibility?"; streamed run]
  /\ true = DEBUG_PRINT (scenario_world (Ok [sample_block]) [false; false]).
Proof.
  apply (followups_asked_about_streamed_text codepoint_tokenizer unit
           (scenario_world (Ok [sample_block]) [false; false])
           tt (lit "What is corrigibility?") (lit "default") [] STANDARD_K quiet_log
           (lit "3f2b8c1e-session")
           [lit "What is corrigibility?"; lit "Hi there"] true).
  vm_compute. do 16 right. left. reflexivity.
Defined.

Lemma done_carries_followups_of_streamed_text_witness :
  let run := run_scenario (Ok [sample_block]) [false; false] in
  multisearch_authored (scenario_world (Ok [sample_block]) [false; false])
    [lit "What is corrigibility?"; streamed run]
    (DEBUG_PRINT (scenario_world (Ok [sample_block]) [false; false]))
  = Ok [].
Proof.
  apply (done_carries_followups_of_streamed_text codepoint_tokenizer unit
           (scenario_world (Ok [sample_block]) [false; false])
           tt (lit "What is corrigibility?") (lit "default") [] STANDARD_K quiet_log
           (lit "3f2b8c1e-session") []).
  vm_compute. do 17 right. left. reflexivity.
Defined.

Lemma user_turns_enter_whole_witness :
  exists prompt,
    construct_prompt codepoint_tokenizer (lit "And then?") (lit "rookie")
      crowded_history [sample_block] = Ok prompt
    /\ Forall2 (fun h m =>
                  (role h = lit "user"
                   /\ m = {| role := lit "user"; content := lit "Q: " ++ content h |})
                  \/ (role h <> lit "user" /\ role m = lit "assistant"))
         (skipn (length crowded_history - length (history_segment prompt))
            crowded_history)
         (history_segment prompt).
Proof.
  destruct (construct_prompt codepoint_tokenizer (lit "And then?") (lit "rookie")
              crowded_history [sample_block]) as [prompt|e] eqn:E.
  - exists prompt. split; [reflexivity|].
    apply (user_turns_enter_whole codepoint_tokenizer (lit "And then?") (lit "rookie")
             crowded_history [sample_block] prompt E).
  - vm_compute in E. discriminate E.
Defined.

Lemma assistant_history_has_no_citation_witness :
  exists prompt,
    construct_prompt codepoint_tokenizer (lit "And then?") (lit "rookie")
      crowded_history [sample_block] = Ok prompt
    /\ Forall (fun m => role m = lit "assistant" -> ~ contains_citation (content m))
         (history_segment prompt).
Proof.
  destruct (construct_prompt codepoint_tokenizer (lit "And then?") (lit "rookie")
              crowded_history [sample_block]) as [prompt|e] eqn:E.
  - exists prompt. split; [reflexivity|].
    apply (assistant_history_has_no_citation codepoint_tokenizer (lit "And then?")
             (lit "rookie") crowded_history [sample_block] prompt E).
  - vm_compute in E. discriminate E.
Defined.

Lemma prompt_length_bounds_witness :
  exists prompt,
    construct_prompt codepoint_tokenizer (lit "And then?") (lit "concise")
      sample_history [sample_block] = Ok prompt
    /\ (2 <= length prompt <= 11)%nat
    /\ (length prompt <= length sample_history + 2)%nat.
Proof.
  destruct (construct_prompt codepoint_tokenizer (lit "And then?") (lit "concise")
              sample_history [sample_block]) as [prompt|e] eqn:E.
  - exists prompt. split; [reflexivity|].
    apply (prompt_length_bounds codepoint_tokenizer (lit "And then?") (lit "concise")
             sample_history [sample_block] prompt E).
  - vm_compute in E. discriminate E.
Defined.

Lemma mode_and_query_change_last_message_only_witness :
  exists prompt1 prompt2,
    construct_prompt codepoint_tokenizer (lit "And then?") (lit "concise")
      sample_history [sample_block] = Ok prompt1
    /\ construct_prompt codepoint_tokenizer (lit "Why?") (lit "rookie")
         sample_history [sample_block] = Ok prompt2
    /\ removelast prompt1 = removelast prompt2
    /\ exists clause,
         last prompt1 {| role := []; content := [] |}
         = {| role := lit "user";
              content := CITE_INSTRUCTIONS ++ clause ++ lit "Q: " ++ lit "And then?" |}
         /\ ((lit "concise" = lit "default" /\ clause = [])
             \/ (lit "concise" = lit "concise" /\ clause = CONCISE_CLAUSE)
             \/ (lit "concise" = lit "rookie" /\ clause = ROOKIE_CLAUSE)).
Proof.
  destruct (construct_prompt codepoint_tokenizer (lit "And then?") (lit "concise")
              sample_history [sample_block]) as [prompt1|e] eqn:E1.
  2:{ vm_compute in E1. discriminate E1. }
  destruct (construct_prompt codepoint_tokenizer (lit "Why?") (lit "rookie")
              sample_history [sample_block]) as [prompt2|e] eqn:E2.
  2:{ vm_compute in E2. discriminate E2. }
  exists prompt1, prompt2. split; [reflexivity|]. split; [reflexivity|].
  apply (mode_and_query_change_last_message_only codepoint_tokenizer
           (lit "And then?") (lit "concise") (lit "Why?") (lit "rookie")
           sample_history [sample_block] prompt1 prompt2 E1 E2).
Defined.

Lemma history_cut_only_over_limit_witness :
  exists prompt,
    construct_prompt codepoint_tokenizer (lit "And then?") (lit "rookie")
      crowded_history [sample_block] = Ok prompt
    /\ HISTORY_LIMIT < messages_cost codepoint_tokenizer (history_segment prompt).
Proof.
  destruct (construct_prompt codepoint_tokenizer (lit "And then?") (lit "rookie")
              crowded_history [sample_block]) as [prompt|e] eqn:E.
  - exists prompt. split; [reflexivity|].
    apply (history_cut_only_over_limit codepoint_tokenizer (lit "And then?")
             (lit "rookie") crowded_history [sample_block] prompt E).
    rewrite (history_segment_collected codepoint_tokenizer _ _ _ _ _ E).
    apply Nat.ltb_lt. vm_compute. reflexivity.
  - vm_compute in E. discriminate E.
Defined.

Lemma kept_message_budget_witness :
  exists prompt,
    construct_prompt codepoint_tokenizer (lit "And then?") (lit "concise")
      sample_history [sample_block] = Ok prompt
    /\ {| role := lit "assistant"; content := lit "See [x], question 5" |}
       = fold_entry codepoint_tokenizer
           {| role := lit "assistant"; content := lit "See [5], question 5" |}
           (messages_cost codepoint_tokenizer
              (firstn 2 (rev (history_segment prompt)))).
Proof.
  destruct (construct_prompt codepoint_tokenizer (lit "And then?") (lit "concise")
              sample_history [sample_block]) as [prompt|e] eqn:E.
  - exists prompt. split; [reflexivity|].
    apply (kept_message_budget codepoint_tokenizer (lit "And then?") (lit "concise")
             sample_history [sample_block] prompt 2
             {| role := lit "assistant"; content := lit "See [5], question 5" |}
             {| role := lit "assistant"; content := lit "See [x], question 5" |} E).
    + vm_compute. reflexivity.
    + rewrite (history_segment_collected codepoint_tokenizer _ _ _ _ _ E).
      vm_compute. reflexivity.
  - vm_compute in E. discriminate E.
Defined.

Lemma citation_letters_distinct_witness :
  exists m,
    letter_keys 0 (map citation_of sample_context) = Ok m
    /\ map snd m = map citation_of sample_context
    /\ NoDup (map fst m).
Proof.
  destruct (letter_keys 0 (map citation_of sample_context)) as [m|e] eqn:E.
  - exists m. split; [reflexivity|].
    apply (citation_letters_distinct (map citation_of sample_context) m E).
  - vm_compute in E. discriminate E.
Defined.

Lemma citation_letters_are_prompt_labels_witness :
  exists strs m,
    block_strs 0 sample_context = Ok strs
    /\ letter_keys 0 (map citation_of sample_context) = Ok m
    /\ Forall2 (fun kv s => exists rest, s = lit "[" ++ fst kv ++ lit "] " ++ rest)
         m strs.
Proof.
  destruct (block_strs 0 sample_context) as [strs|e] eqn:E1.
  2:{ vm_compute in E1. discriminate E1. }
  destruct (letter_keys 0 (map citation_of sample_context)) as [m|e] eqn:E2.
  2:{ vm_compute in E2. discriminate E2. }
  exists strs, m. split; [reflexivity|]. split; [reflexivity|].
  apply (citation_letters_are_prompt_labels sample_context strs m E1 E2).
Defined.

Lemma simple_response_is_streamed_text_witness :
  exists res,
    talk_to_robot_simple codepoint_tokenizer
      (scenario_world (Ok [sample_block]) [false; false])
      tt (lit "What is corrigibility?") quiet_log = Ok res
    /\ response res
       = streamed (run_scenario (Ok [sample_block]) [false; false]).
Proof.
  destruct (talk_to_robot_simple codepoint_tokenizer
              (scenario_world (Ok [sample_block]) [false; false])
              tt (lit "What is corrigibility?") quiet_log) as [res|e] eqn:E.
  - exists res. split; [reflexivity|].
    apply (simple_response_is_streamed_text codepoint_tokenizer unit
             (scenario_world (Ok [sample_block]) [false; false])
             tt (lit "What is corrigibility?") quiet_log res [] E).
    vm_compute. do 6 right. left. reflexivity.
  - vm_compute in E. discriminate E.
Defined.

Lemma simple_citations_follow_retrieval_witness :
  exists res,
    talk_to_robot_simple codepoint_tokenizer
      (scenario_world (Ok [sample_block]) [false; false])
      tt (lit "What is corrigibility?") quiet_log = Ok res
    /\ (forall e,
          get_top_k_blocks (scenario_world (Ok [sample_block]) [false; false]) tt
            (lit "What is corrigibility?") STANDARD_K = Raise e ->
          citations res = None /\ response res = str_of_exn e)
    /\ (forall blocks,
          get_top_k_blocks (scenario_world (Ok [sample_block]) [false; false]) tt
            (lit "What is corrigibility?") STANDARD_K = Ok blocks ->
          exists m, citations res = Some m
                    /\ map snd m = map citation_of blocks
                    /\ NoDup (map fst m)).
Proof.
  destruct (talk_to_robot_simple codepoint_tokenizer
              (scenario_world (Ok [sample_block]) [false; false])
              tt (lit "What is corrigibility?") quiet_log) as [res|e] eqn:E.
  - exists res. split; [reflexivity|].
    apply (simple_citations_follow_retrieval codepoint_tokenizer unit
             (scenario_world (Ok [sample_block]) [false; false])
             tt (lit "What is corrigibility?") quiet_log res E).
  - vm_compute in E. discriminate E.
Defined.

(** ** Prompt assembly where the tokenizer refuses a text *)

Lemma bind_ext {A B} (m : Gen A) (f g : A -> Gen B) :
  (forall a, f a = g a) -> bind m f = bind m g.
Proof. intros H. unfold bind. destruct (snd m); [rewrite H|]; reflexivity. Qed.

Lemma bind_lift_value {A B} (a : A) (f : A -> Gen B) : bind (lift (Ok a)) f = f a.
Proof. unfold bind, lift. simpl. destruct (f a). reflexivity. Qed.

Section CheckedFacts.

Variable ENCODER : CheckedTokenizer.

(** Where the tokenizer refuses nothing, the assembly with raises is the
    assembly without. *)
Section Accepting.

Hypothesis accepts : forall text, refused ENCODER text = None.

Lemma try_encode_accepts (text : str) :
  try_encode ENCODER text = Ok (encode (tokens ENCODER) text).
Proof. unfold try_encode. rewrite accepts. reflexivity. Qed.

Lemma cap_checked_accepts (text : str) (max_tokens : Z) :
  cap_checked ENCODER text max_tokens = Ok (cap (tokens ENCODER) text max_tokens).
Proof.
  unfold cap_checked, cap. rewrite try_encode_accepts.
  destruct (max_tokens <=? 0); [reflexivity|]. cbv zeta.
  destruct (_ <=? max_tokens); reflexivity.
Qed.

Lemma add_blocks_checked_accepts (context : list Block) :
  forall i source_prompt token_count,
    add_blocks_checked ENCODER i context source_prompt token_count
    = add_blocks (tokens ENCODER) i context source_prompt token_count.
Proof.
  induction context as [|block rest IH]; intros i sp tc; cbn [add_blocks_checked add_blocks].
  - reflexivity.
  - destruct (block_str i block) as [bs|e]; [|reflexivity].
    rewrite try_encode_accepts, cap_checked_accepts. cbv zeta.
    destruct (_ >? CONTEXT_LIMIT); [reflexivity | apply IH].
Qed.

Lemma collect_history_checked_accepts (messages : list Message) :
  forall token_count history_trnc,
    collect_history_checked ENCODER messages token_count history_trnc
    = Ok (collect_history (tokens ENCODER) messages token_count history_trnc).
Proof.
  induction messages as [|message rest IH]; intros tc acc;
    cbn [collect_history_checked collect_history].
  - reflexivity.
  - assert (Hfold : fold_entry_checked ENCODER message tc
                    = Ok (fold_entry (tokens ENCODER) message tc)).
    { unfold fold_entry_checked, fold_entry. rewrite cap_checked_accepts.
      destruct (str_eqb _ _); reflexivity. }
    rewrite Hfold, try_encode_accepts. cbv zeta.
    destruct (_ >? HISTORY_LIMIT); [reflexivity | apply IH].
Qed.

Lemma construct_prompt_checked_accepts (query mode : str) (history : list Message)
    (context : list Block) :
  construct_prompt_checked ENCODER query mode history context
  = construct_prompt (tokens ENCODER) query mode history context.
Proof.
  unfold construct_prompt_checked, construct_prompt,
    system_message_checked, system_message.
  rewrite try_encode_accepts, add_blocks_checked_accepts,
    collect_history_checked_accepts.
  destruct (add_blocks _ _ _ _ _); reflexivity.
Qed.

Lemma prompt_tokens_checked_accepts (prompt : list Message) :
  prompt_tokens_checked ENCODER prompt = Ok (prompt_tokens (tokens ENCODER) prompt).
Proof.
  induction prompt as [|m rest IH]; cbn [prompt_tokens_checked]; [reflexivity|].
  rewrite !try_encode_accepts, IH. reflexivity.
Qed.

(** And the run with raises is the run without. *)
Lemma talk_to_robot_internal_checked_accepts (Index : Type) (W : World Index)
    (index : Index) (query mode : str) (history : list Message) (k : Z)
    (log : str -> result unit) (session_id : str) :
  talk_to_robot_internal_checked ENCODER Index W index query mode history k log session_id
  = talk_to_robot_internal (tokens ENCODER) Index W index query mode history k log
      session_id.
Proof.
  unfold talk_to_robot_internal_checked.
  change (talk_to_robot_internal (tokens ENCODER) Index W index query mode history k
            log session_id)
    with (caught (talk_to_robot_body (tokens ENCODER) Index W index query mode history
                    k log session_id)).
  f_equal. unfold talk_to_robot_body_checked, talk_to_robot_body.
  apply bind_ext; intros _. apply bind_ext; intros blocks.
  apply bind_ext; intros _. apply bind_ext; intros _.
  rewrite construct_prompt_checked_accepts.
  apply bind_ext; intros prompt. cbv zeta.
  apply bind_ext; intros mod_res. apply bind_ext; intros _.
  rewrite prompt_tokens_checked_accepts, bind_lift_value. reflexivity.
Qed.

End Accepting.



End CheckedFacts.


(** On the sample the assembly goes through under "default", so the error
    is the invalid-mode error. *)
Lemma invalid_mode_on_sample :
  talk_to_robot_internal_checked (accepting codepoint_tokenizer) unit
    (sample_world (12 # 1) (10 # 1) (Ok [])) tt (lit "What is corrigibility?")
    (lit "verbose") [] STANDARD_K quiet_log (lit "3f2b8c1e-session")
  = [Yield (Loading Semantic None);
     Calls (GetTopKBlocks (lit "What is corrigibility?") 10);
     Yield (Loading Semantic (Some [citation_of sample_block]));
     Yield (Loading Prompt None);
     Yield (Error (lit "Invalid mode: verbose"))].
Proof. vm_compute. reflexivity. Qed.

(** With a history turn that holds the end-of-text token, the tokenizer
    raises while the history is counted, before the mode is looked at: the
    run ends at the same place, with the tokenizer's message. *)
Lemma invalid_mode_behind_refused_text :
  talk_to_robot_internal_checked (strict codepoint_tokenizer) unit
    (sample_world (12 # 1) (10 # 1) (Ok [])) tt (lit "What is corrigibility?")
    (lit "verbose") [{| role := lit "user"; content := ENDOFTEXT |}]
    STANDARD_K quiet_log (lit "3f2b8c1e-session")
  = [Yield (Loading Semantic None);
     Calls (GetTopKBlocks (lit "What is corrigibility?") 10);
     Yield (Loading Semantic (Some [citation_of sample_block]));
     Yield (Loading Prompt None);
     Yield (Error (str_of_exn DISALLOWED))].
Proof. vm_compute. reflexivity. Qed.
